(** * Smart Growth Chamber dashboard: the data pipeline of
    [streamlit_app_thingspeak.py], embedded and verified.

    Modelling conventions, used throughout:
    - a Python [float] cell of a pandas column is a rational [Q]; the
      missing value (NaN / None) is [None : option Q].  Every finite
      double is a rational and Python compares ints and floats exactly,
      so order tests agree with the source on finite values; rounding,
      infinities and signed zeros are outside the model;
    - a pandas [Timestamp] / [Timedelta] is its integer count of
      nanoseconds, a [Z];
    - a Python [dict] is a [gmap], the column index of a frame a [gset];
    - a Python exception is a [Raise] result. *)

From Stdlib Require Import QArith Lqa Ascii String.
From stdpp Require Import base option list sorting strings pretty gmap.

#[local] Open Scope Z_scope.

(** ** Exceptions and results *)

Inductive exn : Type :=
| KeyError (key : string)
| ValueError (msg : string)
| HTTPError (msg : string)
| UnknownTimeZoneError (zone : string).

Inductive result (A : Type) : Type :=
| Ok (a : A)
| Raise (e : exn).

Arguments Ok {A} a.
Arguments Raise {A} e.

#[global] Instance result_ret : MRet result := λ A a, Ok a.

#[global] Instance result_bind : MBind result := λ A B k r,
  match r with
  | Ok a => k a
  | Raise e => Raise e
  end.

(** ** Threshold bands of the summary cards (lines 16-33) *)

Definition GRAY : string := "#3F4F61".
Definition RED : string := "red".

Definition LIMITS_MAIN : gmap string (Q * Q) :=
  {[ "soil_moist" := (25 # 1, 50 # 1)%Q;
     "air_temp" := (20 # 1, 30 # 1)%Q;
     "air_hum" := (40 # 1, 60 # 1)%Q;
     "soil_ph" := (55 # 10, 68 # 10)%Q ]}.

(** [lo <= val <= hi] on an optional value; [None] is Python's [None]. *)
Definition _in_range (val : option Q) (lo_hi : Q * Q) : bool :=
  let '(lo, hi) := lo_hi in
  match val with
  | None => false
  | Some v => Qle_bool lo v && Qle_bool v hi
  end.

(** The card's background colour; [LIMITS_MAIN[metric_key]] raises
    [KeyError] on an unknown key, but only once the value is known to be
    present. *)
Definition _bg_for_main (metric_key : string) (value : option Q) : result string :=
  match value with
  | None => Ok GRAY
  | Some _ =>
      match LIMITS_MAIN !! metric_key with
      | None => Raise (KeyError metric_key)
      | Some lo_hi => Ok (if negb (_in_range value lo_hi) then RED else GRAY)
      end
  end.

(** The three-way classification in the words of the specification, and
    the colour the presentation layer gives each class. *)
Inductive classification : Type := inRange | outOfRange | noData.

Definition classify_spec (lo_hi : Q * Q) (value : option Q) : classification :=
  match value with
  | None => noData
  | Some v =>
      if Qlt_le_dec v (fst lo_hi) then outOfRange
      else if Qlt_le_dec (snd lo_hi) v then outOfRange
      else inRange
  end.

Definition colour_of (c : classification) : string :=
  match c with
  | outOfRange => RED
  | inRange | noData => GRAY
  end.

(** ** Label clean-up (lines 93-96, 141-147)

    A Python [str] is modelled by a [string] read as the sequence of its
    code points, each below 256.  [is_space] is [str.isspace] on that
    range, which is also what the pattern [\s] matches: TAB to CR, the
    separators FS to US, the space, NEL and the no-break space. *)

Definition is_space (c : ascii) : bool :=
  let n := N_of_ascii c in
  ((9 <=? n) && (n <=? 13) || (28 <=? n) && (n <=? 32)
   || (n =? 133) || (n =? 160))%N.

(** [re.sub(r'\s+', ' ', s)]: every maximal run of white space becomes one
    space.  [in_run] tells that the previous character was white space. *)
Fixpoint sub_spaces (in_run : bool) (l : list ascii) : list ascii :=
  match l with
  | [] => []
  | c :: l' =>
      if is_space c then
        if in_run then sub_spaces true l' else " "%char :: sub_spaces true l'
      else c :: sub_spaces false l'
  end.

Fixpoint lstrip (l : list ascii) : list ascii :=
  match l with
  | [] => []
  | c :: l' => if is_space c then lstrip l' else l
  end.

Definition rstrip (l : list ascii) : list ascii := reverse (lstrip (reverse l)).

Definition strip (l : list ascii) : list ascii := rstrip (lstrip l).

Definition _clean (s : string) : string :=
  if bool_decide (s = "") then ""
  else string_of_list_ascii (strip (sub_spaces false (list_ascii_of_string s))).

Definition nonspace (c : ascii) : bool := negb (is_space c).

(** What "trimmed and collapsed" asks of a cleaned label: white space
    only as single spaces between other characters. *)
Fixpoint single_spaced (l : list ascii) : Prop :=
  match l with
  | [] => True
  | c :: l' =>
      (is_space c = true →
       c = " "%char ∧ ∀ d, head l' = Some d → is_space d = false)
      ∧ single_spaced l'
  end.

Definition trimmed_collapsed (l : list ascii) : Prop :=
  single_spaced l
  ∧ (∀ c, head l = Some c → is_space c = false)
  ∧ (∀ c, last l = Some c → is_space c = false).

(** The same clean-up said with words, as Python's [" ".join(s.split())]:
    [split_ws [] l] lists the maximal runs of characters of [l] that are
    not white space ([word] is the run being read), and [join_space]
    puts one space between two neighbours. *)
Fixpoint split_ws (word : list ascii) (l : list ascii) : list (list ascii) :=
  match l with
  | [] => match word with [] => [] | _ => [word] end
  | c :: l' =>
      if is_space c then
        match word with
        | [] => split_ws [] l'
        | _ => word :: split_ws [] l'
        end
      else split_ws (word ++ [c]) l'
  end.

Definition join_space (ws : list (list ascii)) : list ascii :=
  match ws with
  | [] => []
  | w :: ws' => w ++ concat ((λ w', " "%char :: w') <$> ws')
  end.

(** Python's [a or b] on strings. *)
Definition str_or (a b : string) : string :=
  if bool_decide (a = "") then b else a.

Definition field_key (i : nat) : string := "field" +:+ pretty i.

Definition label_map_from_meta (meta : gmap string string) : gmap string string :=
  foldl (λ mapping i,
           let key := field_key i in
           let name := str_or (_clean (default "" (meta !! key))) key in
           <[key := name]> mapping)
        ∅ (seq 1 8).

(** ** The request of the feed client (lines 102-110) *)

Record date : Type := mkdate { year : nat; month : nat; day : nat }.

(** Decimal digits of [n], left-padded with zeros to [width] characters. *)
Definition zero_pad (width : nat) (n : nat) : string :=
  let s := pretty n in
  string_of_list_ascii (replicate (width - String.length s) "0"%char) +:+ s.

(** [str(d)] of a [datetime.date]: its ISO form. *)
Definition isoformat (d : date) : string :=
  zero_pad 4 (year d) +:+ "-" +:+ zero_pad 2 (month d) +:+ "-" +:+ zero_pad 2 (day d).

(** A query parameter is a string or an integer. *)
Inductive pval : Type :=
| PStr (s : string)
| PInt (n : Z).

Definition request_params (timezone : string) (use_range : bool)
    (start_date end_date : date) (max_points : Z) (read_key : option string)
  : gmap string pval :=
  let params : gmap string pval := {[ "timezone" := PStr timezone ]} in
  let params :=
    if use_range then
      <["end" := PStr (isoformat end_date +:+ " 23:59:59")]>
        (<["start" := PStr (isoformat start_date +:+ " 00:00:00")]> params)
    else <["results" := PInt max_points]> params in
  match read_key with
  | Some key => if bool_decide (key = "") then params else <["api_key" := PStr key]> params
  | None => params
  end.

Definition CHANNEL_SOIL : Z := 2869579.
Definition CHANNEL_ENV : Z := 2913085.
Definition DEFAULT_TIMEZONE : string := "America/Monterrey".
Definition DEFAULT_RES_MIN : Z := 10.
Definition MAX_POINTS : Z := 8000.

(** ** Frames and series

    Only the numeric cells of a frame are modelled: [row_cells] holds the
    float columns (those [fetch_thingspeak] coerces, whose name starts
    with "field"), a key without entry being a missing cell.  The other
    columns of the pandas frame ("created_at", "entry_id") keep their
    name in [columns]; the program never reads their cells, and what is
    stated below of a column is stated of a float column. *)

Record Row : Type := mkRow { row_ts : Z; row_cells : gmap string Q }.

Record DataFrame : Type := mkDF { columns : gset string; rows : list Row }.

(** A pandas [Series] of floats over a time index. *)
Abbreviation Series := (list (Z * option Q)) (only parsing).

(** [pd.DataFrame()] *)
Definition empty_frame : DataFrame := mkDF ∅ [].

(** [df.empty]: no row or no column. *)
Definition empty (df : DataFrame) : bool :=
  bool_decide (rows df = [] ∨ columns df = ∅).

(** [df[field]] *)
Definition column (df : DataFrame) (field : string) : Series :=
  (λ r, (row_ts r, row_cells r !! field)) <$> rows df.

(** [.dropna()]: the entries that carry a value. *)
Definition dropna (s : Series) : list (Z * Q) :=
  omap (λ e, (λ v, (e.1, v)) <$> e.2) s.

(** ** What the program takes from outside: the pandas parsers, the zone
    database and the HTTP endpoint. *)

(** A feed record as decoded from JSON: key to string, or [None] for
    [null]. *)
Abbreviation record := (gmap string (option string)) (only parsing).

Record Payload : Type := mkPayload {
  channel : option (gmap string string);
  feeds : option (list record)
}.

Record Externals : Type := mkExternals {
  (** [pd.to_datetime(col, utc=True, errors="coerce")] on one cell of the
      column [col] (the format is inferred per column): the UTC instant,
      or [None] for NaT. *)
  to_datetime : list (option string) → option string → option Z;
  to_datetime_null : ∀ col, to_datetime col None = None;
  (** [pd.to_numeric(_, errors="coerce")] on one string cell. *)
  to_numeric : string → option Q;
  to_numeric_empty : to_numeric "" = None;
  (** The wall clock of a zone: UTC instant to local naive time; [None]
      for a name that is no zone. *)
  tz_lookup : string → option (Z → Z);
  (** [requests.get(base, params=params, timeout=30)], followed by
      [raise_for_status()] and [json()]. *)
  http_get : string → gmap string pval → result Payload
}.

(** ** The series normalizer (lines 117-139) *)

Fixpoint startswith (p s : string) : bool :=
  match p, s with
  | EmptyString, _ => true
  | String a p', String b s' => bool_decide (a = b) && startswith p' s'
  | String _ _, EmptyString => false
  end.

(** The columns of [pd.DataFrame(feeds)]: every key of every record. *)
Definition raw_columns (fs : list record) : gset string := ⋃ (dom <$> fs).

(** The raw cell of a record: a missing key and [null] both read as
    missing. *)
Definition raw_cell (r : record) (c : string) : option string := mjoin (r !! c).

Definition created_at_column (fs : list record) : list (option string) :=
  (λ r, raw_cell r "created_at") <$> fs.

(** The instant of a record, in the context of its column. *)
Definition instant (E : Externals) (fs : list record) (r : record) : option Z :=
  to_datetime E (created_at_column fs) (raw_cell r "created_at").

(** The loop over the columns whose name starts with "field". *)
Definition numeric_cells (E : Externals) (r : record) : gmap string Q :=
  omap (λ v, v ≫= to_numeric E) (filter (λ kv, startswith "field" kv.1 = true) r).

Definition by_instant (a b : Z * record) : Prop := a.1 ≤ b.1.

#[global] Instance by_instant_dec a b : Decision (by_instant a b) := Z.le_dec _ _.

#[global] Instance by_instant_total : Total by_instant.
Proof. intros a b. unfold by_instant. lia. Qed.

#[global] Instance by_instant_trans : Transitive by_instant.
Proof. intros a b c. unfold by_instant. lia. Qed.

(** The records that survive [dropna(subset=["created_at"])], each with
    its instant. *)
Definition dated (E : Externals) (fs : list record) : list (Z * record) :=
  omap (λ r, (λ t, (t, r)) <$> instant E fs r) fs.

(** The row a dated record becomes: indexed by the local wall clock, its
    field cells coerced one by one. *)
Definition row_of (E : Externals) (local : Z → Z) (tr : Z * record) : Row :=
  mkRow (local tr.1) (numeric_cells E tr.2).

(** The rows are ordered by [sort_index] while the index is still zone
    aware, so by instant.  The order in which two rows of one instant
    come out is the sorting routine's business; no statement below
    depends on it. *)
Definition frame_of_feeds (E : Externals) (timezone : string) (fs : list record)
  : result DataFrame :=
  let cols := raw_columns fs in
  if bool_decide (fs = [] ∨ cols = ∅) then Ok empty_frame
  else if bool_decide ("created_at" ∈ cols) then
    match tz_lookup E timezone with
    | None => Raise (UnknownTimeZoneError timezone)
    | Some local =>
        Ok (mkDF cols (row_of E local <$> merge_sort by_instant (dated E fs)))
    end
  else Raise (KeyError "created_at").

Definition fetch_thingspeak (E : Externals) (channel_id : Z) (timezone : string)
    (use_range : bool) (start_date end_date : date) (max_points : Z)
    (read_key : option string) : result (gmap string string * DataFrame) :=
  let base := "https://api.thingspeak.com/channels/" +:+ pretty channel_id
              +:+ "/feeds.json" in
  let params := request_params timezone use_range start_date end_date
                  max_points read_key in
  payload ← http_get E base params;
  let channel_meta := default ∅ (channel payload) in
  df ← frame_of_feeds E timezone (default [] (feeds payload));
  mret (channel_meta, df).

(** ** The aggregator (lines 149-162) *)

Definition latest_value (df : DataFrame) (field : string) : option Q * option Z :=
  if empty df || negb (bool_decide (field ∈ columns df)) then (None, None)
  else
    match last (dropna (column df field)) with
    | None => (None, None)
    | Some (ts, val) => (Some val, Some ts)
    end.

(** The reading of "latest non-missing" used in the statements below:
    [(ts, v)] is an entry of the series and every later entry is
    missing. *)
Definition all_missing (s : Series) : Prop := Forall (λ e, e.2 = None) s.

Definition last_present (s : Series) (ts : Z) (v : Q) : Prop :=
  ∃ before after, s = before ++ (ts, Some v) :: after ∧ all_missing after.

(** A field has no value to offer: the table is empty, the column is not
    there, or all its cells are missing. *)
Definition no_value (df : DataFrame) (field : string) : Prop :=
  empty df = true ∨ field ∉ columns df ∨ all_missing (column df field).

Definition latest_present (df : DataFrame) (field : string) (v : Q) : Prop :=
  empty df = false ∧ field ∈ columns df
  ∧ ∃ ts, last_present (column df field) ts v.

Definition ns_per_minute : Z := 60000000000.
Definition ns_per_day : Z := 1440 * ns_per_minute.

Definition Qsum (vs : list Q) : Q := foldr Qplus 0%Q vs.

(** The mean pandas takes of a bucket: over the values present, and
    missing when there is none. *)
Definition mean (vs : list Q) : option Q :=
  match vs with
  | [] => None
  | _ => Some (Qsum vs / inject_Z (Z.of_nat (length vs)))%Q
  end.

(** The values present at the instants [t] with [lo <= t < hi]. *)
Definition bucket_values (s : Series) (lo hi : Z) : list Q :=
  snd <$> dropna (filter (λ e, lo ≤ e.1 < hi) s).

Definition index_min (s : Series) (t0 : Z) : Z := foldr Z.min t0 (fst <$> s).
Definition index_max (s : Series) (t0 : Z) : Z := foldr Z.max t0 (fst <$> s).

(** The first bin edge: the first instant brought down to the grid of
    step [w] that starts at the midnight of its day. *)
Definition first_edge (first w : Z) : Z :=
  let origin := first - first `mod` ns_per_day in
  first - (first - origin) `mod` w.

(** The number of bins: the last edge is the first grid point after the
    last instant. *)
Definition bin_count (first last w : Z) : nat :=
  Z.to_nat ((last - first_edge first w) `div` w + 1).

(** [s.resample(w, label="right").mean()] for a tick width of [w]
    nanoseconds (bins closed on the left, as pandas takes them for such
    a width), on a series that has a row. *)
Definition resample_mean (s : Series) (w : Z) : Series :=
  match s with
  | [] => []
  | e :: _ =>
      let first := index_min s e.1 in
      let last := index_max s e.1 in
      let e0 := first_edge first w in
      (λ i : nat, let lo := e0 + Z.of_nat i * w in
                  (lo + w, mean (bucket_values s lo (lo + w))))
        <$> seq 0 (bin_count first last w)
  end.

Definition resample_series (df : DataFrame) (field : string) (minutes : Z)
  : result Series :=
  if empty df || negb (bool_decide (field ∈ columns df)) then Ok []
  else if bool_decide (0 < minutes) then
    Ok (resample_mean (column df field) (minutes * ns_per_minute))
  else Raise (ValueError "frequency").

(** ** The trend model and its projection (lines 191-205, 249-316) *)

Definition latest_lin_params (df_env : DataFrame) : option Q * option Q :=
  let m :=
    if negb (empty df_env) && bool_decide ("field5" ∈ columns df_env) then
      snd <$> last (dropna (column df_env "field5"))
    else None in
  let b :=
    if negb (empty df_env) && bool_decide ("field6" ∈ columns df_env) then
      snd <$> last (dropna (column df_env "field6"))
    else None in
  match m, b with
  | Some m, Some b => (Some m, Some b)
  | _, _ => (None, None)
  end.

Record Trend : Type := mkTrend { idx_ext : list Z; yhat : list Q }.

(** What the figure is given: the temperature trace, the trend trace when
    there is one, and the correlation shown in the legend. *)
Record Figure : Type := mkFigure {
  air_temp : list (Z * Q);
  trend : option Trend;
  r_val : option Q
}.

(** [pd.date_range(start=start, periods=periods, freq=freq)] *)
Definition date_range (start : Z) (periods : nat) (freq : Z) : list Z :=
  (λ i : nat, start + Z.of_nat i * freq) <$> seq 0 periods.

Definition steps_future : nat := 100.

(** The slice [l[-n:]]: the last [n] items, and all of them for [n = 0]. *)
Definition last_n {A : Type} (n : nat) (l : list A) : list A :=
  match n with
  | O => l
  | _ => drop (length l - n) l
  end.

(** The index of the anchor window: [series.index[-n:]] for
    [n = min(30, len(series))]. *)
Definition anchor_index (series : list (Z * Q)) : list Z :=
  fst <$> last_n (Nat.min 30 (length series)) series.

(** Lines 283-293: the trend trace; [None] stands for the [IndexError]
    of [idx[0]] on an empty series, which the caller's guard excludes. *)
Definition project (res_min : Z) (series : list (Z * Q)) (m b : Q) : option Trend :=
  let n := Nat.min 30 (length series) in
  let idx := anchor_index series in
  let x := seq 0 (n + steps_future) in
  let yhat := (λ xi : nat, m * inject_Z (Z.of_nat xi) + b)%Q <$> x in
  match idx with
  | [] => None
  | idx0 :: rest =>
      let freq := match rest with
                  | idx1 :: _ => idx1 - idx0
                  | [] => res_min * ns_per_minute
                  end in
      Some (mkTrend (date_range idx0 (length x) freq) yhat)
  end.

(** The figure of the air temperature page; [None] when the page only
    warns that the field is not available. *)
Definition plot_air_temp_with_trend (res_min : Z) (df_env : DataFrame)
  : result (option Figure) :=
  if empty df_env || negb (bool_decide ("field1" ∈ columns df_env)) then Ok None
  else
    resampled ← resample_series df_env "field1" res_min;
    let series := dropna resampled in
    match latest_lin_params df_env, series with
    | (Some m, Some b), _ :: _ =>
        let r :=
          if bool_decide ("field7" ∈ columns df_env) then
            snd <$> last (dropna (column df_env "field7"))
          else None in
        Ok (Some (mkFigure series (project res_min series m b) r))
    | _, _ => Ok (Some (mkFigure series None None))
    end.

(** ** The metric pages and the summary (lines 235-247, 341-358)

    The cards are kept as what [kpi_card_full] and [kpi_card] are handed;
    the HTML they write is not modelled, and neither are the icons of the
    summary, which are emoji, outside the strings modelled here. *)

Record Kpi : Type := mkKpi {
  kpi_title : string;
  kpi_value : option Q;
  kpi_unit : string;
  kpi_icon : string;
  kpi_ts : option Z
}.

(** The line chart of a metric page: the resampled series and the label
    of its value axis. *)
Record Chart : Type := mkChart { chart_series : Series; chart_y_label : string }.

(** A metric page: the card on top, and the chart unless the page warns
    that the field is not available. *)
Record MetricPage : Type := mkMetricPage {
  page_kpi : Kpi;
  page_chart : option Chart
}.

Definition plot_metric (res_min : Z) (df : DataFrame)
    (field title y_label unit icon : string) : result MetricPage :=
  let '(val, ts) := latest_value df field in
  let kpi := mkKpi title val unit icon ts in
  if bool_decide (field = "") || empty df
     || negb (bool_decide (field ∈ columns df)) then
    Ok (mkMetricPage kpi None)
  else
    series ← resample_series df field res_min;
    Ok (mkMetricPage kpi (Some (mkChart series y_label))).

(** ["°C"], the degree sign being the code point 176. *)
Definition DEG_C : string := String (ascii_of_nat 176) "C".

Record Card : Type := mkCard {
  card_title : string;
  card_value : option Q;
  card_unit : string;
  card_bg : string
}.

(** The four cards of the "Resumen" page, in column order. *)
Definition summary (df_soil df_env : DataFrame) : result (list Card) :=
  let val_sm := (latest_value df_soil "field2").1 in
  let val_ta := (latest_value df_env "field1").1 in
  let val_rh := (latest_value df_env "field2").1 in
  let val_ph := (latest_value df_soil "field4").1 in
  bg_sm ← _bg_for_main "soil_moist" val_sm;
  bg_ta ← _bg_for_main "air_temp" val_ta;
  bg_rh ← _bg_for_main "air_hum" val_rh;
  bg_ph ← _bg_for_main "soil_ph" val_ph;
  mret [ mkCard "Soil Moisture" val_sm "%" bg_sm;
         mkCard "Air Temp" val_ta DEG_C bg_ta;
         mkCard "Air Humidity" val_rh "%" bg_rh;
         mkCard "Soil pH" val_ph "pH" bg_ph ].

(** ** A concrete outside world, to run the pipeline on examples

    The parsers below read the formats ThingSpeak emits (ISO 8601 instants
    in UTC with a [Z] suffix, plain decimal numbers); on these strings
    they agree with pandas. *)

Module Sample.

Definition digit (c : ascii) : option Z :=
  let n := Z.of_N (N_of_ascii c) in
  if (48 <=? n) && (n <=? 57) then Some (n - 48) else None.

Fixpoint number_from (acc : Z) (l : list ascii) : option Z :=
  match l with
  | [] => Some acc
  | c :: l' => d ← digit c; number_from (10 * acc + d) l'
  end.

Definition digits (l : list ascii) : option Z :=
  match l with
  | [] => None
  | _ => number_from 0 l
  end.

(** Days from 1970-01-01 to the civil date [y]-[m]-[d]. *)
Definition days_from_civil (y m d : Z) : Z :=
  let y' := if m <=? 2 then y - 1 else y in
  let era := y' `div` 400 in
  let yoe := y' - era * 400 in
  let doy := (153 * (if 2 <? m then m - 3 else m + 9) + 2) `div` 5 + d - 1 in
  let doe := yoe * 365 + yoe `div` 4 - yoe `div` 100 + doy in
  era * 146097 + doe - 719468.

(** ["YYYY-MM-DDTHH:MM:SSZ"] to nanoseconds since the epoch. *)
Definition iso8601 (s : string) : option Z :=
  let l := list_ascii_of_string s in
  if bool_decide (length l = 20%nat ∧ l !! 4%nat = Some "-"%char
                  ∧ l !! 7%nat = Some "-"%char ∧ l !! 10%nat = Some "T"%char
                  ∧ l !! 13%nat = Some ":"%char ∧ l !! 16%nat = Some ":"%char
                  ∧ l !! 19%nat = Some "Z"%char) then
    y ← digits (take 4 l);
    mo ← digits (take 2 (drop 5 l));
    d ← digits (take 2 (drop 8 l));
    h ← digits (take 2 (drop 11 l));
    mi ← digits (take 2 (drop 14 l));
    sec ← digits (take 2 (drop 17 l));
    if bool_decide (1 ≤ mo ≤ 12 ∧ 1 ≤ d ≤ 31 ∧ h < 24 ∧ mi < 60 ∧ sec < 60) then
      Some ((((days_from_civil y mo d * 24 + h) * 60 + mi) * 60 + sec) * 1000000000)
    else None
  else None.

Fixpoint split_at_dot (l : list ascii) : list ascii * option (list ascii) :=
  match l with
  | [] => ([], None)
  | c :: l' =>
      if bool_decide (c = "."%char) then ([], Some l')
      else let '(i, f) := split_at_dot l' in (c :: i, f)
  end.

(** [-]digits[.digits] to the rational it writes. *)
Definition decimal (s : string) : option Q :=
  let l := list_ascii_of_string s in
  let '(neg, l) := match l with
                   | c :: l' => if bool_decide (c = "-"%char) then (true, l') else (false, l)
                   | [] => (false, l)
                   end in
  let '(ipart, fpart) := split_at_dot l in
  i ← digits ipart;
  q ← match fpart with
       | None => Some (inject_Z i)
       | Some fl =>
           f ← digits fl;
           Some (Qmake (i * 10 ^ Z.of_nat (length fl) + f)
                       (Z.to_pos (10 ^ Z.of_nat (length fl))))
       end;
  Some (if neg : bool then Qopp q else q).

Definition hour : Z := 60 * ns_per_minute.

(** 2024-11-03T07:00:00Z, when Chicago's clocks went back. *)
Definition chicago_fall_back : Z := 1730617200 * 1000000000.

(** Monterrey keeps UTC-6 all year; Chicago is given for the second half
    of 2024, with its return to standard time. *)
Definition zones (name : string) : option (Z → Z) :=
  if bool_decide (name = "UTC") then Some (λ t, t)
  else if bool_decide (name = "America/Monterrey") then Some (λ t, t - 6 * hour)
  else if bool_decide (name = "America/Chicago") then
    Some (λ t, if bool_decide (t < chicago_fall_back) then t - 5 * hour else t - 6 * hour)
  else None.

Definition feed (created_at : string) (fields : list (string * option string)) : record :=
  <["created_at" := Some created_at]> (list_to_map fields).

(** The channel answers with three readings, whatever is asked. *)
Definition canned : Payload :=
  mkPayload
    (Some {[ "field1" := "Air  Temp "; "field4" := "" ]})
    (Some [ feed "2024-05-01T12:00:00Z" [("field1", Some "21.5"); ("field2", Some "30")];
            feed "2024-05-01T12:01:00Z" [("field1", Some "n/a"); ("field2", None)];
            feed "2024-05-01T12:02:00Z" [("field1", Some "22.5"); ("field2", Some "40")] ]).

(** Each cell is read on its own: the sample has one format. *)
Definition parse_instant (col : list (option string)) (cell : option string)
  : option Z := cell ≫= iso8601.

Definition world : Externals :=
  mkExternals parse_instant (λ _, eq_refl) decimal eq_refl zones
              (λ _ _, Ok canned).

(** 2024-05-01 06:00:00, Monterrey wall clock. *)
Definition T0 : Z := 1714543200 * 1000000000.

(** The soil table of the resampling scenario: three readings of field2
    one minute apart, the middle one missing. *)
Definition soil_frame : DataFrame :=
  mkDF {[ "created_at"; "field2" ]}
       [ mkRow T0 {[ "field2" := (30 # 1)%Q ]};
         mkRow (T0 + ns_per_minute) ∅;
         mkRow (T0 + 2 * ns_per_minute) {[ "field2" := (40 # 1)%Q ]} ].

Definition env_row (k : Z) (temp : Q) : Row :=
  mkRow (T0 + k * 10 * ns_per_minute)
        {[ "field1" := temp; "field5" := (1 # 2)%Q; "field6" := (20 # 1)%Q;
           "field7" := (9 # 10)%Q ]}.

(** The environmental table of the trend scenario: five readings ten
    minutes apart, slope 0.5 and intercept 20. *)
Definition env_frame : DataFrame :=
  mkDF {[ "created_at"; "field1"; "field5"; "field6"; "field7" ]}
       [ env_row 0 (21 # 1); env_row 1 (22 # 1); env_row 2 (23 # 1);
         env_row 3 (24 # 1); env_row 4 (25 # 1) ].

Definition env_resampled : list (Z * option Q) :=
  match resample_series env_frame "field1" 10 with
  | Ok s => s
  | Raise _ => []
  end.

(** Two records of the same instant. *)
Definition twin_feeds : list (gmap string (option string)) :=
  [ feed "2024-05-01T12:00:00Z" [("field1", Some "21.5")];
    feed "2024-05-01T12:00:00Z" [("field1", Some "22.5")] ].

(** Two records forty minutes apart, across Chicago's return to standard
    time: 01:30 CDT, then 01:10 CST. *)
Definition fall_back_feeds : list (gmap string (option string)) :=
  [ feed "2024-11-03T06:30:00Z" [("field1", Some "10")];
    feed "2024-11-03T07:10:00Z" [("field1", Some "11")] ].

(** Three records: a good one, one whose timestamp does not parse, and
    one with a field that is no number and a field that is empty. *)
Definition ragged_feeds : list (gmap string (option string)) :=
  [ feed "2024-05-01T12:00:00Z" [("field1", Some "21.5"); ("field2", Some "30")];
    feed "yesterday" [("field1", Some "22"); ("field2", Some "31")];
    feed "2024-05-01T12:02:00Z" [("field1", Some "n/a"); ("field2", Some "");
                                  ("field3", Some "7")] ].

(** A channel that answers with its labels and no feed, in a world that
    knows no zone. *)
Definition quiet : Externals :=
  mkExternals parse_instant (λ _, eq_refl) decimal eq_refl (λ _, None)
              (λ _ _, Ok (mkPayload (Some {[ "field1" := "Air Temp" ]}) None)).

End Sample.

(** * Verification *)

(** * Threshold bands *)

Lemma LIMITS_MAIN_ordered (metric_key : string) (lo hi : Q) :
  LIMITS_MAIN !! metric_key = Some (lo, hi) → (lo <= hi)%Q.
Proof.
  unfold LIMITS_MAIN. intros H.
  repeat (apply lookup_insert_Some in H as [[_ H] | [_ H]];
          [injection H as <- <-; discriminate |]).
  apply lookup_singleton_Some in H as [_ H].
  injection H as <- <-. discriminate.
Qed.

Lemma in_range_true (v lo hi : Q) :
  _in_range (Some v) (lo, hi) = true ↔ (lo <= v ∧ v <= hi)%Q.
Proof.
  cbn. rewrite andb_true_iff, !Qle_bool_iff. reflexivity.
Qed.

Lemma in_range_false (v lo hi : Q) :
  _in_range (Some v) (lo, hi) = false ↔ (v < lo ∨ hi < v)%Q.
Proof.
  cbn. rewrite andb_false_iff. split.
  - intros [H | H]; [left | right]; apply Qnot_le_lt; intros Hle;
      apply Qle_bool_iff in Hle; congruence.
  - intros [H | H]; [left | right]; apply not_true_is_false; intros Hle;
      apply Qle_bool_iff in Hle; eapply Qlt_not_le; eauto.
Qed.

Lemma classify_spec_out (lo hi v : Q) :
  classify_spec (lo, hi) (Some v) = outOfRange ↔ (v < lo ∨ hi < v)%Q.
Proof.
  cbn. destruct (Qlt_le_dec v lo) as [H1 | H1]; [tauto |].
  destruct (Qlt_le_dec hi v) as [H2 | H2]; [tauto |].
  split; [discriminate |].
  intros [H | H]; exfalso; eapply Qlt_not_le; eauto.
Qed.

Lemma bg_refines_classify (metric_key : string) (lo hi : Q) (value : option Q) :
  LIMITS_MAIN !! metric_key = Some (lo, hi) →
  _bg_for_main metric_key value = Ok (colour_of (classify_spec (lo, hi) value)).
Proof.
  intros Hk. destruct value as [v |]; [| reflexivity].
  unfold _bg_for_main. rewrite Hk.
  destruct (classify_spec (lo, hi) (Some v)) eqn:Hc.
  - assert (Hin : _in_range (Some v) (lo, hi) = true).
    { apply not_false_iff_true. intros Hf.
      apply in_range_false, classify_spec_out in Hf. congruence. }
    rewrite Hin. reflexivity.
  - apply classify_spec_out, in_range_false in Hc. rewrite Hc. reflexivity.
  - cbn in Hc. repeat destruct (Qlt_le_dec _ _); discriminate.
Qed.

(** C7.  For a configured metric key with band [lo, hi]: a null value is
    classified noData (the neutral card colour); a value strictly below
    [lo] or strictly above [hi] is out of range (red); any other value is
    in range (neutral).  The bounds themselves are in range, and [lo - ε]
    and [hi + ε] are out of range for every [ε > 0].  The colour the code
    returns is the colour of the specification's three-way class. *)
Theorem bg_for_main_classifies (metric_key : string) (lo hi : Q) :
  LIMITS_MAIN !! metric_key = Some (lo, hi) →
  _bg_for_main metric_key None = Ok GRAY
  ∧ classify_spec (lo, hi) None = noData
  ∧ (∀ v, (v < lo ∨ hi < v)%Q →
       _in_range (Some v) (lo, hi) = false
       ∧ classify_spec (lo, hi) (Some v) = outOfRange
       ∧ _bg_for_main metric_key (Some v) = Ok RED)
  ∧ (∀ v, (lo <= v ∧ v <= hi)%Q →
       _in_range (Some v) (lo, hi) = true
       ∧ classify_spec (lo, hi) (Some v) = inRange
       ∧ _bg_for_main metric_key (Some v) = Ok GRAY)
  ∧ _bg_for_main metric_key (Some lo) = Ok GRAY
  ∧ _bg_for_main metric_key (Some hi) = Ok GRAY
  ∧ (∀ ε, (0 < ε)%Q →
       _bg_for_main metric_key (Some (lo - ε)%Q) = Ok RED
       ∧ _bg_for_main metric_key (Some (hi + ε)%Q) = Ok RED)
  ∧ (∀ value, _bg_for_main metric_key value
              = Ok (colour_of (classify_spec (lo, hi) value))).
Proof.
  intros Hk.
  pose proof (LIMITS_MAIN_ordered _ _ _ Hk) as Hord.
  assert (Hout : ∀ v, (v < lo ∨ hi < v)%Q →
            _in_range (Some v) (lo, hi) = false
            ∧ classify_spec (lo, hi) (Some v) = outOfRange
            ∧ _bg_for_main metric_key (Some v) = Ok RED).
  { intros v Hv. split; [by apply in_range_false |].
    split; [by apply classify_spec_out |].
    rewrite (bg_refines_classify _ lo hi) by done.
    apply classify_spec_out in Hv. by rewrite Hv. }
  assert (Hin : ∀ v, (lo <= v ∧ v <= hi)%Q →
            _in_range (Some v) (lo, hi) = true
            ∧ classify_spec (lo, hi) (Some v) = inRange
            ∧ _bg_for_main metric_key (Some v) = Ok GRAY).
  { intros v Hv. split; [by apply in_range_true |].
    assert (Hc : classify_spec (lo, hi) (Some v) = inRange).
    { destruct (classify_spec (lo, hi) (Some v)) eqn:Hc; [done | | ].
      - apply classify_spec_out in Hc as [Hc | Hc]; exfalso;
          eapply Qlt_not_le; eauto; tauto.
      - cbn in Hc. repeat destruct (Qlt_le_dec _ _); discriminate. }
    split; [done |].
    rewrite (bg_refines_classify _ lo hi) by done. by rewrite Hc. }
  split; [done |]. split; [done |]. split; [done |]. split; [done |].
  split; [apply Hin; split; [apply Qle_refl | done] |].
  split; [apply Hin; split; [done | apply Qle_refl] |].
  split; [| intros value; by apply bg_refines_classify].
  intros ε Hε. split; apply Hout; [left | right].
  - lra.
  - lra.
Qed.

Lemma bg_for_main_classifies_witness :
  LIMITS_MAIN !! "air_temp" = Some ((20 # 1)%Q, (30 # 1)%Q)
  ∧ _bg_for_main "air_temp" (Some (35 # 1)%Q) = Ok RED.
Proof.
  split; [reflexivity |].
  destruct (bg_for_main_classifies "air_temp" (20 # 1) (30 # 1) eq_refl)
    as (_ & _ & Hout & _).
  apply Hout. right. reflexivity.
Defined.

(** * Label clean-up *)


Lemma lstrip_all_space (l : list ascii) :
  Forall (λ c, is_space c = true) l → lstrip l = [].
Proof. induction 1 as [| c l Hc _ IH]; cbn; [done |]. by rewrite Hc. Qed.

Lemma sub_spaces_all_space (b : bool) (l : list ascii) :
  Forall (λ c, is_space c = true) l →
  Forall (λ c, is_space c = true) (sub_spaces b l).
Proof.
  intros H. revert b. induction H as [| c l Hc _ IH]; intros b; cbn; [done |].
  rewrite Hc. destruct b; [apply IH |]. constructor; [done | apply IH].
Qed.

Lemma lstrip_decompose (l : list ascii) :
  ∃ ws, l = ws ++ lstrip l ∧ Forall (λ c, is_space c = true) ws.
Proof.
  induction l as [| c l (ws & IH & Hws)]; [by exists [] |].
  cbn. destruct (is_space c) eqn:Hc.
  - exists (c :: ws). split; [cbn; congruence | by constructor].
  - by exists [].
Qed.

Lemma lstrip_head (l : list ascii) (c : ascii) :
  head (lstrip l) = Some c → is_space c = false.
Proof.
  induction l as [| a l IH]; cbn; [done |].
  destruct (is_space a) eqn:Ha; [done |]. cbn. congruence.
Qed.

Lemma filter_nonspace_all_space (l : list ascii) :
  Forall (λ c, is_space c = true) l → filter (λ c, nonspace c = true) l = [].
Proof.
  induction 1 as [| c l Hc _ IH]; [done |].
  rewrite filter_cons_False; [done |]. unfold nonspace. by rewrite Hc.
Qed.

Lemma lstrip_nonspace (l : list ascii) :
  filter (λ c, nonspace c = true) (lstrip l) = filter (λ c, nonspace c = true) l.
Proof.
  destruct (lstrip_decompose l) as (ws & Hl & Hws).
  rewrite Hl at 2. rewrite filter_app, (filter_nonspace_all_space ws); done.
Qed.

Lemma rstrip_nonspace (l : list ascii) :
  filter (λ c, nonspace c = true) (rstrip l) = filter (λ c, nonspace c = true) l.
Proof.
  unfold rstrip.
  rewrite filter_reverse, lstrip_nonspace, <- filter_reverse, reverse_involutive.
  done.
Qed.

Lemma sub_spaces_nonspace (b : bool) (l : list ascii) :
  filter (λ c, nonspace c = true) (sub_spaces b l)
  = filter (λ c, nonspace c = true) l.
Proof.
  revert b. induction l as [| c l IH]; intros b; cbn [sub_spaces]; [done |].
  destruct (is_space c) eqn:Hc.
  - rewrite (filter_cons_False _ c) by (unfold nonspace; by rewrite Hc).
    destruct b; [apply IH |].
    rewrite filter_cons_False by done. apply IH.
  - rewrite !filter_cons_True by (unfold nonspace; by rewrite Hc).
    by rewrite IH.
Qed.

(** The characters that are not white space survive, in order. *)
Lemma clean_nonspace (l : list ascii) :
  filter (λ c, nonspace c = true) (strip (sub_spaces false l))
  = filter (λ c, nonspace c = true) l.
Proof.
  unfold strip. by rewrite rstrip_nonspace, lstrip_nonspace, sub_spaces_nonspace.
Qed.

Lemma clean_list_empty (l : list ascii) :
  strip (sub_spaces false l) = [] ↔ Forall (λ c, is_space c = true) l.
Proof.
  split.
  - intros H. pose proof (clean_nonspace l) as Hf. rewrite H in Hf.
    apply Forall_forall. intros c Hc.
    destruct (is_space c) eqn:Hs; [done |].
    assert (c ∈ filter (λ c, nonspace c = true) l) as Hin.
    { apply list_elem_of_filter. split; [| done]. unfold nonspace. by rewrite Hs. }
    rewrite <- Hf in Hin. by apply elem_of_nil in Hin.
  - intros H. unfold strip, rstrip.
    rewrite (lstrip_all_space (sub_spaces false l))
      by by apply sub_spaces_all_space.
    done.
Qed.

Lemma clean_empty (s : string) :
  _clean s = "" ↔ Forall (λ c, is_space c = true) (list_ascii_of_string s).
Proof.
  unfold _clean. case_bool_decide as Hs; [subst; cbn; split; [constructor | done] |].
  rewrite <- clean_list_empty. split.
  - intros H. apply (f_equal list_ascii_of_string) in H.
    by rewrite list_ascii_of_string_of_list_ascii in H.
  - by intros ->.
Qed.

Lemma single_spaced_app_l (l1 l2 : list ascii) :
  single_spaced (l1 ++ l2) → single_spaced l1.
Proof.
  induction l1 as [| c l1 IH]; cbn; [done |].
  intros [Hc Hrest]. split; [| by apply IH].
  intros Hs. destruct (Hc Hs) as [-> Hnext]. split; [done |].
  intros d Hd. apply Hnext. destruct l1; [done | exact Hd].
Qed.

Lemma single_spaced_app_r (l1 l2 : list ascii) :
  single_spaced (l1 ++ l2) → single_spaced l2.
Proof. induction l1 as [| c l1 IH]; cbn; [done |]. intros [_ H]. by apply IH. Qed.

Lemma sub_spaces_single_spaced (b : bool) (l : list ascii) :
  single_spaced (sub_spaces b l)
  ∧ (b = true → ∀ d, head (sub_spaces b l) = Some d → is_space d = false).
Proof.
  revert b. induction l as [| c l IH]; intros b; cbn [sub_spaces]; [done |].
  destruct (is_space c) eqn:Hc.
  - destruct b; [apply IH |].
    split; [| done]. cbn. split; [| apply IH].
    intros _. split; [done | by apply IH].
  - split.
    + cbn. split; [congruence | apply IH].
    + intros _ d [= <-]. done.
Qed.

Lemma rstrip_decompose (l : list ascii) :
  ∃ ws, l = rstrip l ++ ws ∧ Forall (λ c, is_space c = true) ws.
Proof.
  destruct (lstrip_decompose (reverse l)) as (ws & Hl & Hws).
  exists (reverse ws). split; [| by apply Forall_reverse].
  unfold rstrip. rewrite <- reverse_app, <- Hl. by rewrite reverse_involutive.
Qed.

Lemma rstrip_last (l : list ascii) (c : ascii) :
  last (rstrip l) = Some c → is_space c = false.
Proof. unfold rstrip. rewrite last_reverse. apply lstrip_head. Qed.

(** [_clean] leaves white space only as single spaces between other
    characters. *)
Lemma clean_trimmed_collapsed (l : list ascii) :
  trimmed_collapsed (strip (sub_spaces false l)).
Proof.
  unfold strip.
  set (a := sub_spaces false l).
  destruct (lstrip_decompose a) as (ws1 & Ha & _).
  destruct (rstrip_decompose (lstrip a)) as (ws2 & Hb & _).
  assert (Hss : single_spaced (lstrip a)).
  { apply (single_spaced_app_r ws1). rewrite <- Ha. apply sub_spaces_single_spaced. }
  split; [| split].
  - apply (single_spaced_app_l _ ws2). by rewrite <- Hb.
  - intros c Hc. apply (lstrip_head a). rewrite Hb.
    destruct (rstrip (lstrip a)); [done | exact Hc].
  - apply rstrip_last.
Qed.

(** ** The clean-up, word by word *)

Lemma lstrip_app (a b : list ascii) :
  lstrip (a ++ b) = match lstrip a with [] => lstrip b | y => y ++ b end.
Proof.
  induction a as [| c a IH]; cbn [app lstrip]; [done |].
  by destruct (is_space c).
Qed.

Lemma rstrip_cons (c : ascii) (x : list ascii) :
  rstrip (c :: x)
  = match rstrip x with
    | [] => if is_space c then [] else [c]
    | y => c :: y
    end.
Proof.
  unfold rstrip. rewrite reverse_cons, lstrip_app.
  destruct (lstrip (reverse x)) as [| d y] eqn:Hl.
  - cbn. by destruct (is_space c).
  - rewrite reverse_app. cbn [reverse app]. rewrite reverse_singleton.
    cbn [app]. by destruct (reverse (d :: y)) eqn:Hr;
      [apply (f_equal length) in Hr; rewrite length_reverse in Hr |].
Qed.

Lemma lstrip_sub_spaces (l : list ascii) :
  lstrip (sub_spaces false l) = sub_spaces true l.
Proof.
  destruct l as [| c l]; cbn [sub_spaces]; [done |].
  destruct (is_space c) eqn:Hc; cbn [lstrip]; rewrite ?Hc; [| done].
  change (is_space " "%char) with true. cbn iota.
  pose proof (proj2 (sub_spaces_single_spaced true l) eq_refl) as Hhead.
  destruct (sub_spaces true l) as [| d y]; [done |].
  cbn [lstrip]. by rewrite (Hhead d).
Qed.

Lemma split_ws_nonempty (word l : list ascii) :
  Forall (λ w, w ≠ []) (split_ws word l).
Proof.
  revert word. induction l as [| c l IH]; intros word; cbn [split_ws].
  - destruct word; [constructor | by repeat constructor].
  - destruct (is_space c); [| apply IH].
    destruct word; [apply IH |]. constructor; [done | apply IH].
Qed.

Lemma concat_spaced (ws : list (list ascii)) :
  Forall (λ w, w ≠ []) ws →
  concat ((λ w', " "%char :: w') <$> ws)
  = match join_space ws with [] => [] | y => " "%char :: y end.
Proof.
  intros Hne. destruct ws as [| w ws]; [done |].
  apply Forall_cons_1 in Hne as [Hw _]. cbn.
  by destruct w.
Qed.

Lemma clean_split_ws (l : list ascii) :
  rstrip (sub_spaces true l) = join_space (split_ws [] l)
  ∧ ∀ word, word ≠ [] →
      word ++ rstrip (sub_spaces false l) = join_space (split_ws word l).
Proof.
  induction l as [| c l [IH1 IH2]]; cbn [sub_spaces split_ws].
  - split; [done |]. intros [| a word] Hw; [done |]. cbn. by rewrite app_nil_r.
  - assert (Hchar : is_space c = false →
              rstrip (c :: sub_spaces false l) = c :: rstrip (sub_spaces false l)).
    { intros Hc. rewrite rstrip_cons, Hc. by destruct (rstrip (sub_spaces false l)). }
    destruct (is_space c) eqn:Hc.
    + split; [exact IH1 |]. intros [| a word] Hw; [done |].
      rewrite rstrip_cons, IH1. change (is_space " "%char) with true.
      cbn [join_space fmap list_fmap]. f_equal.
      symmetry. apply concat_spaced, split_ws_nonempty.
    + split.
      * rewrite Hchar by done. cbn [app]. by rewrite <- (IH2 [c]).
      * intros word Hw. rewrite Hchar by done.
        rewrite <- IH2 by (by destruct word). by rewrite <- app_assoc.
Qed.

(** [_clean] is [" ".join(s.split())]. *)
Lemma clean_words (l : list ascii) :
  strip (sub_spaces false l) = join_space (split_ws [] l).
Proof.
  unfold strip. rewrite lstrip_sub_spaces. apply clean_split_ws.
Qed.

Lemma label_map_lookup (meta : gmap string string) (i : nat) :
  (1 ≤ i ≤ 8)%nat →
  label_map_from_meta meta !! field_key i
  = Some (str_or (_clean (default "" (meta !! field_key i))) (field_key i)).
Proof.
  intros Hi.
  assert (Hcases : i ∈ seq 1 8) by (apply elem_of_seq; lia).
  unfold label_map_from_meta. cbn [seq foldl] in *.
  repeat (apply elem_of_cons in Hcases as [-> | Hcases];
          [ repeat (rewrite lookup_insert_ne by (vm_compute; discriminate));
            apply lookup_insert_eq |]).
  by apply elem_of_nil in Hcases.
Qed.

(** C10.  For each slot 1..8 the resolved name is the cleaned metadata
    label (no white space at either end, inner white space collapsed to
    single spaces, the other characters kept in order: the words of the
    label joined by single spaces), unless that is empty, in which case
    it is the canonical identifier ["field<i>"]; the cleaned label is
    empty exactly when the label is missing, empty or made of white space
    only. *)
Theorem label_map_from_meta_fallback (meta : gmap string string) (i : nat) :
  (1 ≤ i ≤ 8)%nat →
  let key := field_key i in
  let label := default "" (meta !! key) in
  label_map_from_meta meta !! key
  = Some (if bool_decide (_clean label = "") then key else _clean label)
  ∧ (_clean label = ""
     ↔ Forall (λ c, is_space c = true) (list_ascii_of_string label))
  ∧ (meta !! key = None → label_map_from_meta meta !! key = Some key)
  ∧ trimmed_collapsed (list_ascii_of_string (_clean label))
  ∧ filter (λ c, negb (is_space c) = true) (list_ascii_of_string (_clean label))
    = filter (λ c, negb (is_space c) = true) (list_ascii_of_string label)
  ∧ list_ascii_of_string (_clean label)
    = join_space (split_ws [] (list_ascii_of_string label)).
Proof.
  intros Hi. cbv zeta.
  set (key := field_key i). set (label := default "" (meta !! key)).
  assert (Hlist : list_ascii_of_string (_clean label)
                  = strip (sub_spaces false (list_ascii_of_string label))).
  { unfold _clean. case_bool_decide as Hl.
    - rewrite Hl. reflexivity.
    - by rewrite list_ascii_of_string_of_list_ascii. }
  split; [by apply label_map_lookup |].
  split; [apply clean_empty |].
  split.
  - intros Hnone. unfold key. rewrite label_map_lookup by done.
    fold key. rewrite Hnone. reflexivity.
  - rewrite Hlist. split; [apply clean_trimmed_collapsed |].
    split; [apply clean_nonspace | apply clean_words].
Qed.

Lemma label_map_from_meta_fallback_witness :
  label_map_from_meta {[ "field4" := "" ]} !! "field4" = Some "field4".
Proof.
  destruct (label_map_from_meta_fallback {[ "field4" := "" ]} 4) as (H & _).
  - lia.
  - exact H.
Defined.

(** * The request of the feed client *)

Lemma request_params_api_key (timezone : string) (use_range : bool)
    (start_date end_date : date) (max_points : Z) (read_key : option string) :
  request_params timezone use_range start_date end_date max_points read_key
    !! "api_key"
  = match read_key with
    | Some key => if bool_decide (key = "") then None else Some (PStr key)
    | None => None
    end.
Proof.
  unfold request_params.
  destruct read_key as [key |]; [case_bool_decide |];
    destruct use_range; by simplify_map_eq.
Qed.

Lemma request_params_mode (timezone : string) (use_range : bool)
    (start_date end_date : date) (max_points : Z) (read_key : option string)
    (name : string) :
  name ≠ "api_key" →
  request_params timezone use_range start_date end_date max_points read_key
    !! name
  = ((if use_range then
        <["end" := PStr (isoformat end_date +:+ " 23:59:59")]>
          (<["start" := PStr (isoformat start_date +:+ " 00:00:00")]>
             {[ "timezone" := PStr timezone ]})
      else <["results" := PInt max_points]> {[ "timezone" := PStr timezone ]})
      : gmap string pval) !! name.
Proof.
  intros Hname. unfold request_params.
  destruct read_key as [key |]; [case_bool_decide |]; try done.
  by rewrite lookup_insert_ne.
Qed.

(** C9.  The request always names the time zone and uses exactly one
    query mode.  In "latest N" mode it carries [results], equal to the
    point cap it was given (hence bounded by it), and neither [start] nor
    [end]; in "date range" mode it carries [start] = the start date at
    00:00:00 and [end] = the end date at 23:59:59, and no [results].  The
    [api_key] parameter is present exactly when a non-empty key is
    supplied.  [fetch_thingspeak] sends these parameters to the channel's
    feed endpoint. *)
Theorem request_params_modes (timezone : string) (start_date end_date : date)
    (max_points : Z) (read_key : option string) :
  let latest := request_params timezone false start_date end_date max_points read_key in
  let ranged := request_params timezone true start_date end_date max_points read_key in
  (latest !! "timezone" = Some (PStr timezone)
   ∧ latest !! "results" = Some (PInt max_points)
   ∧ (∀ n, latest !! "results" = Some (PInt n) → n ≤ max_points)
   ∧ latest !! "start" = None
   ∧ latest !! "end" = None)
  ∧ (ranged !! "timezone" = Some (PStr timezone)
     ∧ ranged !! "start" = Some (PStr (isoformat start_date +:+ " 00:00:00"))
     ∧ ranged !! "end" = Some (PStr (isoformat end_date +:+ " 23:59:59"))
     ∧ ranged !! "results" = None)
  ∧ (∀ use_range,
       request_params timezone use_range start_date end_date max_points None
         !! "api_key" = None
       ∧ request_params timezone use_range start_date end_date max_points (Some "")
           !! "api_key" = None
       ∧ ∀ key, key ≠ "" →
           request_params timezone use_range start_date end_date max_points
             (Some key) !! "api_key" = Some (PStr key))
  ∧ (∀ E channel_id use_range,
       fetch_thingspeak E channel_id timezone use_range start_date end_date
         max_points read_key
       = (payload ← http_get E
            ("https://api.thingspeak.com/channels/" +:+ pretty channel_id
             +:+ "/feeds.json")
            (request_params timezone use_range start_date end_date
               max_points read_key);
          df ← frame_of_feeds E timezone (default [] (feeds payload));
          mret (default ∅ (channel payload), df))).
Proof.
  cbv zeta. split; [| split; [| split]].
  - rewrite !request_params_mode by done. simplify_map_eq.
    split; [done |]. split; [done |]. split; [| done].
    intros n [= <-]. lia.
  - rewrite !request_params_mode by done. by simplify_map_eq.
  - intros use_range. rewrite !request_params_api_key.
    split; [done |]. split; [done |].
    intros key Hkey. rewrite request_params_api_key. by case_bool_decide.
  - reflexivity.
Qed.

(** * Normalization *)

Lemma omap_all_none {A B : Type} (f : A → option B) (l : list A) :
  (∀ a, a ∈ l → f a = None) → omap f l = [].
Proof.
  induction l as [| a l IH]; [done |]. intros Hf.
  cbn. rewrite (Hf a) by apply list_elem_of_here.
  apply IH. intros a' Ha'. apply Hf. by apply list_elem_of_further.
Qed.

Lemma elem_of_raw_columns (fs : list record) (c : string) :
  c ∈ raw_columns fs ↔ ∃ r, r ∈ fs ∧ is_Some (r !! c).
Proof.
  unfold raw_columns. rewrite elem_of_union_list. split.
  - intros (X & HX & Hc). apply list_elem_of_fmap in HX as (r & -> & Hr).
    exists r. split; [done |]. by apply elem_of_dom.
  - intros (r & Hr & Hc). exists (dom r). split.
    + apply list_elem_of_fmap. by exists r.
    + by apply elem_of_dom.
Qed.

Section normalizer.

Context (E : Externals).
Implicit Types (fs : list record) (r : record) (c : string).

(** Records without any key have no creation time to read. *)
Lemma dated_no_columns fs : raw_columns fs = ∅ → dated E fs = [].
Proof.
  intros Hcols. unfold dated.
  assert (Hnone : ∀ r, r ∈ fs → instant E fs r = None).
  { intros r Hr. unfold instant, raw_cell.
    destruct (r !! "created_at") as [o |] eqn:Hlk.
    - exfalso. assert ("created_at" ∈ raw_columns fs) as Hin.
      { apply elem_of_raw_columns. exists r. by rewrite Hlk. }
      rewrite Hcols in Hin. by apply elem_of_empty in Hin.
    - apply to_datetime_null. }
  apply omap_all_none. intros r Hr. by rewrite Hnone.
Qed.

Lemma length_dated fs :
  (length (dated E fs) + length (filter (λ r, instant E fs r = None) fs)
   = length fs)%nat.
Proof.
  unfold dated. generalize (instant E fs). intros f.
  induction fs as [| r fs IH]; [done |].
  cbn [omap list_omap]. destruct (f r) eqn:Hr; cbn [fmap option_fmap option_map].
  - rewrite filter_cons_False by congruence. cbn. lia.
  - rewrite filter_cons_True by done. cbn. lia.
Qed.

(** A field cell depends on the raw string of that field alone. *)
Lemma numeric_cells_lookup r c :
  startswith "field" c = true →
  numeric_cells E r !! c = raw_cell r c ≫= to_numeric E.
Proof.
  intros Hc. unfold numeric_cells, raw_cell.
  rewrite lookup_omap, map_lookup_filter.
  destruct (r !! c) as [[s |] |]; cbn; try done.
  all: rewrite option_guard_True by done; done.
Qed.

Lemma numeric_cells_other r c :
  startswith "field" c = false → numeric_cells E r !! c = None.
Proof.
  intros Hc. unfold numeric_cells.
  rewrite lookup_omap, map_lookup_filter.
  destruct (r !! c) as [o |]; cbn; [| done].
  rewrite option_guard_False; [done |].
  intros H. change (startswith "field" c = true) in H. congruence.
Qed.

Section zone.

(** A zone the database knows, with its wall clock. *)
Context (timezone : string) (local : Z → Z).
Hypothesis Hzone : tz_lookup E timezone = Some local.

Lemma frame_of_feeds_rows fs :
  (raw_columns fs ≠ ∅ → "created_at" ∈ raw_columns fs) →
  ∃ df, frame_of_feeds E timezone fs = Ok df
        ∧ rows df = row_of E local <$> merge_sort by_instant (dated E fs).
Proof.
  intros Hschema. unfold frame_of_feeds. cbv zeta.
  case_bool_decide as Hempty.
  - exists empty_frame. split; [done |].
    assert (dated E fs = []) as ->; [| done].
    destruct Hempty as [-> | Hcols]; [done | by apply dated_no_columns].
  - rewrite bool_decide_true by (apply Hschema; tauto).
    rewrite Hzone. eexists. split; done.
Qed.

Lemma index_sorted (l : list (Z * record)) :
  (∀ a b, a ≤ b → local a ≤ local b) →
  StronglySorted by_instant l →
  StronglySorted Z.le (row_ts <$> (row_of E local <$> l)).
Proof.
  intros Hmono Hs. rewrite <- list_fmap_compose.
  apply (StronglySorted_fmap _ by_instant Z.le); [| done].
  intros a b Hab. cbn. by apply Hmono.
Qed.



End zone.

End normalizer.

(** * Latest values *)

Lemma dropna_app (s1 s2 : Series) : dropna (s1 ++ s2) = dropna s1 ++ dropna s2.
Proof. apply omap_app. Qed.

Lemma dropna_nil (s : Series) : dropna s = [] ↔ all_missing s.
Proof.
  unfold all_missing. induction s as [| [t [v |]] s IH]; cbn.
  - split; [constructor | done].
  - split; [done |]. intros H. by apply Forall_cons_1 in H as [? _].
  - rewrite IH. split; [by constructor |]. intros H. by apply Forall_cons_1 in H as [_ ?].
Qed.

Lemma last_dropna_None (s : Series) : last (dropna s) = None ↔ all_missing s.
Proof. rewrite last_None. apply dropna_nil. Qed.

Lemma last_dropna_Some (s : Series) (ts : Z) (v : Q) :
  last (dropna s) = Some (ts, v) ↔ last_present s ts v.
Proof.
  split.
  - induction s as [| [t o] s IH] using rev_ind; [done |].
    rewrite dropna_app. destruct o as [q |]; cbn.
    + rewrite last_snoc. intros [= -> ->].
      exists s, []. split; [done | constructor].
    + rewrite app_nil_r. intros H. destruct (IH H) as (before & after & -> & Hafter).
      exists before, (after ++ [(t, None)]). split.
      * by rewrite <- app_assoc.
      * apply Forall_app. split; [done |]. by constructor.
  - intros (before & after & -> & Hafter).
    apply dropna_nil in Hafter.
    change ((ts, Some v) :: after) with ([(ts, Some v)] ++ after).
    rewrite !dropna_app, Hafter, app_nil_r.
    apply last_snoc.
Qed.

Lemma latest_value_unfold (df : DataFrame) (field : string) :
  empty df = false → field ∈ columns df →
  latest_value df field
  = match last (dropna (column df field)) with
    | None => (None, None)
    | Some (ts, val) => (Some val, Some ts)
    end.
Proof.
  intros He Hf. unfold latest_value. rewrite He. by rewrite bool_decide_true.
Qed.

Lemma latest_value_guard (df : DataFrame) (field : string) :
  empty df = true ∨ field ∉ columns df → latest_value df field = (None, None).
Proof.
  intros H. unfold latest_value. destruct (empty df); [done |].
  destruct H as [? | H]; [done |]. by rewrite bool_decide_false.
Qed.

Lemma latest_value_None (df : DataFrame) (field : string) :
  latest_value df field = (None, None) ↔ no_value df field.
Proof.
  unfold no_value. destruct (empty df) eqn:He.
  { rewrite latest_value_guard by (left; by rewrite He).
    split; [by left | done]. }
  destruct (decide (field ∈ columns df)) as [Hf | Hf]; cycle 1.
  { rewrite latest_value_guard by by right.
    split; [by right; left | done]. }
  rewrite latest_value_unfold by done.
  destruct (last (dropna (column df field))) as [[ts v] |] eqn:Hlast.
  - split; [done |]. intros [? | [? | Hall]]; [done | done |].
    apply last_dropna_None in Hall. congruence.
  - apply last_dropna_None in Hlast. split; [by right; right | done].
Qed.

Lemma latest_value_Some (df : DataFrame) (field : string) (v : Q) (ts : Z) :
  latest_value df field = (Some v, Some ts)
  ↔ empty df = false ∧ field ∈ columns df ∧ last_present (column df field) ts v.
Proof.
  destruct (empty df) eqn:He.
  { rewrite latest_value_guard by (left; by rewrite He).
    split; [done | by intros [? _]]. }
  destruct (decide (field ∈ columns df)) as [Hf | Hf]; cycle 1.
  { rewrite latest_value_guard by by right.
    split; [done | by intros (_ & ? & _)]. }
  rewrite latest_value_unfold by done.
  rewrite <- last_dropna_Some.
  destruct (last (dropna (column df field))) as [[ts' v'] |].
  - split; [by intros [= -> ->] |]. by intros (_ & _ & [= -> ->]).
  - split; [done | by intros (_ & _ & ?)].
Qed.

Lemma latest_value_cases (df : DataFrame) (field : string) :
  latest_value df field = (None, None)
  ∨ ∃ v ts, latest_value df field = (Some v, Some ts).
Proof.
  unfold latest_value.
  destruct (empty df || negb (bool_decide (field ∈ columns df))); [by left |].
  destruct (last (dropna (column df field))) as [[ts v] |]; [| by left].
  right. by exists v, ts.
Qed.


(** * The trend model *)

Lemma latest_lin_params_unfold (df : DataFrame) :
  latest_lin_params df
  = match (latest_value df "field5").1, (latest_value df "field6").1 with
    | Some m, Some b => (Some m, Some b)
    | _, _ => (None, None)
    end.
Proof.
  unfold latest_lin_params, latest_value.
  destruct (empty df); [done |]. cbn [negb andb orb].
  assert (Hcol : ∀ f, (if bool_decide (f ∈ columns df)
                       then snd <$> last (dropna (column df f)) else None)
                      = (if negb (bool_decide (f ∈ columns df)) then (None, None)
                         else match last (dropna (column df f)) with
                              | None => (None, None)
                              | Some (ts, val) => (Some val, Some ts)
                              end).1).
  { intros f. case_bool_decide; [| done]. cbn.
    by destruct (last (dropna (column df f))) as [[? ?] |]. }
  by rewrite !Hcol.
Qed.

Lemma latest_value_fst_Some (df : DataFrame) (field : string) (v : Q) :
  (latest_value df field).1 = Some v ↔ latest_present df field v.
Proof.
  unfold latest_present. split.
  - intros H.
    destruct (latest_value_cases df field) as [Hn | (v' & ts & Hs)];
      [by rewrite Hn in H |].
    rewrite Hs in H. injection H as ->.
    apply latest_value_Some in Hs as (? & ? & ?). eauto.
  - intros (He & Hf & ts & Hp).
    assert (latest_value df field = (Some v, Some ts)) as ->
      by by apply latest_value_Some.
    done.
Qed.

Lemma latest_value_fst_None (df : DataFrame) (field : string) :
  (latest_value df field).1 = None ↔ no_value df field.
Proof.
  rewrite <- latest_value_None. split.
  - intros H.
    destruct (latest_value_cases df field) as [Hn | (v & ts & Hs)]; [done |].
    by rewrite Hs in H.
  - by intros ->.
Qed.


(** * Resampling *)

Lemma index_min_le (s : Series) (t0 : Z) :
  index_min s t0 ≤ t0 ∧ ∀ e, e ∈ s → index_min s t0 ≤ e.1.
Proof.
  unfold index_min. induction s as [| a s [IH0 IH]]; cbn.
  - split; [lia |]. intros e He. by apply elem_of_nil in He.
  - split; [lia |]. intros e [-> | He]%elem_of_cons; [lia |].
    specialize (IH e He). lia.
Qed.

Lemma index_max_ge (s : Series) (t0 : Z) :
  t0 ≤ index_max s t0 ∧ ∀ e, e ∈ s → e.1 ≤ index_max s t0.
Proof.
  unfold index_max. induction s as [| a s [IH0 IH]]; cbn.
  - split; [lia |]. intros e He. by apply elem_of_nil in He.
  - split; [lia |]. intros e [-> | He]%elem_of_cons; [lia |].
    specialize (IH e He). lia.
Qed.

Lemma first_edge_bounds (first w : Z) :
  0 < w → first_edge first w ≤ first < first_edge first w + w.
Proof.
  intros Hw. unfold first_edge.
  pose proof (Z.mod_pos_bound (first - (first - first `mod` ns_per_day)) w Hw).
  lia.
Qed.

(** The grid the bins sit on is the one that starts at the midnight of
    the first reading's day. *)
Lemma first_edge_aligned (first w : Z) :
  0 < w → (first_edge first w - (first - first `mod` ns_per_day)) `mod` w = 0.
Proof.
  intros Hw. unfold first_edge.
  set (d := first - (first - first `mod` ns_per_day)).
  replace (first - d `mod` w - (first - first `mod` ns_per_day))
    with (d - d `mod` w) by (unfold d; lia).
  rewrite (Z.div_mod d w) at 1 by lia.
  replace (w * (d `div` w) + d `mod` w - d `mod` w) with ((d `div` w) * w) by lia.
  apply Z.mod_mul. lia.
Qed.

Lemma mean_arithmetic (vs : list Q) (q : Q) :
  mean vs = Some q →
  vs ≠ [] ∧ (q * inject_Z (Z.of_nat (length vs)) == Qsum vs)%Q.
Proof.
  destruct vs as [| v vs]; [done |]. intros [= <-]. split; [done |].
  set (n := inject_Z (Z.of_nat (length (v :: vs)))).
  assert (Hn : ¬ (n == 0)%Q).
  { unfold n, Qeq. cbn [length]. cbn. lia. }
  rewrite Qmult_comm. by apply Qmult_div_r.
Qed.

Lemma resample_mean_lookup (s : Series) (w : Z) (i : nat) (L : Z) (v : option Q) :
  resample_mean s w !! i = Some (L, v) →
  ∃ e, head s = Some e
       ∧ L = first_edge (index_min s e.1) w + (Z.of_nat i + 1) * w
       ∧ v = mean (bucket_values s (L - w) L)
       ∧ (i < bin_count (index_min s e.1) (index_max s e.1) w)%nat.
Proof.
  unfold resample_mean. destruct s as [| e s]; [done |]. cbv zeta.
  rewrite list_lookup_fmap.
  destruct (seq 0 _ !! i) as [k |] eqn:Hk; [| done].
  apply lookup_seq in Hk as [-> Hlt]. cbn [fmap option_fmap option_map].
  intros [= <- <-]. exists e. split; [done |].
  split; [lia |]. split; [| done].
  f_equal. f_equal. lia.
Qed.

Lemma resample_mean_covers (s : Series) (w : Z) (t : Z) (x : option Q) :
  0 < w → (t, x) ∈ s →
  ∃ L v, (L, v) ∈ resample_mean s w ∧ L - w ≤ t < L.
Proof.
  intros Hw Hin. unfold resample_mean. destruct s as [| e s].
  { by apply elem_of_nil in Hin. }
  set (s' := e :: s) in *.
  set (first := index_min s' e.1). set (last := index_max s' e.1).
  set (e0 := first_edge first w).
  pose proof (proj2 (index_min_le s' e.1) _ Hin) as Hmin.
  pose proof (proj2 (index_max_ge s' e.1) _ Hin) as Hmax.
  pose proof (first_edge_bounds first w Hw) as He0.
  cbv zeta. cbn [fst] in Hmin, Hmax. fold first in Hmin. fold last in Hmax. fold e0 in He0.
  set (i := (t - e0) `div` w).
  assert (Hi : 0 ≤ i) by (apply Z.div_pos; lia).
  assert (Hile : i ≤ (last - e0) `div` w) by (apply Z.div_le_mono; lia).
  pose proof (Z.div_mod (t - e0) w ltac:(lia)) as Hdm.
  pose proof (Z.mod_pos_bound (t - e0) w Hw) as Hmb.
  fold i in Hdm.
  exists (e0 + Z.of_nat (Z.to_nat i) * w + w),
         (mean (bucket_values s' (e0 + Z.of_nat (Z.to_nat i) * w)
                                 (e0 + Z.of_nat (Z.to_nat i) * w + w))).
  split.
  - apply list_elem_of_fmap. exists (Z.to_nat i). split; [done |].
    apply elem_of_seq. unfold bin_count. fold e0. lia.
  - rewrite Z2Nat.id by done. lia.
Qed.


(** * The trend projection *)

Lemma length_anchor_index (series : list (Z * Q)) :
  length (anchor_index series) = Nat.min 30 (length series).
Proof.
  unfold anchor_index, last_n. rewrite length_fmap.
  destruct (Nat.min 30 (length series)) eqn:Hn.
  - destruct series; [done | cbn in Hn; lia].
  - rewrite length_drop. lia.
Qed.

Lemma date_range_lookup (start : Z) (periods : nat) (freq : Z) (x : nat) :
  (x < periods)%nat →
  date_range start periods freq !! x = Some (start + Z.of_nat x * freq).
Proof.
  intros Hx. unfold date_range.
  by rewrite list_lookup_fmap, lookup_seq_lt.
Qed.

Lemma length_date_range (start : Z) (periods : nat) (freq : Z) :
  length (date_range start periods freq) = periods.
Proof. unfold date_range. by rewrite length_fmap, length_seq. Qed.

(** The step of the projected axis, as line 292 infers it. *)
Lemma project_Some (res_min : Z) (series : list (Z * Q)) (m b : Q) :
  series ≠ [] →
  ∃ idx0,
    anchor_index series !! 0%nat = Some idx0
    ∧ project res_min series m b
      = Some (mkTrend
                (date_range idx0 (Nat.min 30 (length series) + steps_future)
                   (match anchor_index series !! 1%nat with
                    | Some idx1 => idx1 - idx0
                    | None => res_min * ns_per_minute
                    end))
                ((λ xi : nat, m * inject_Z (Z.of_nat xi) + b)%Q
                   <$> seq 0 (Nat.min 30 (length series) + steps_future))).
Proof.
  intros Hne. pose proof (length_anchor_index series) as Hlen.
  unfold project. cbv zeta.
  destruct (anchor_index series) as [| idx0 rest].
  { destruct series; [done | cbn in Hlen; lia]. }
  exists idx0. split; [done |].
  rewrite length_seq. by destruct rest.
Qed.

Lemma plot_with_trend (res_min : Z) (df_env : DataFrame)
    (resampled : list (Z * option Q)) (m b : Q) :
  resample_series df_env "field1" res_min = Ok resampled →
  dropna resampled ≠ [] →
  latest_lin_params df_env = (Some m, Some b) →
  ∃ r, plot_air_temp_with_trend res_min df_env
       = Ok (Some (mkFigure (dropna resampled)
                     (project res_min (dropna resampled) m b) r)).
Proof.
  intros Hres Hne Hmb. unfold plot_air_temp_with_trend.
  destruct (empty df_env || negb (bool_decide ("field1" ∈ columns df_env)))
    eqn:Hguard.
  { unfold resample_series in Hres. rewrite Hguard in Hres.
    injection Hres as <-. done. }
  rewrite Hres, Hmb. cbn.
  destruct (dropna resampled) eqn:Hs; [done |]. eauto.
Qed.


(** ** The step of the projected axis is positive *)

Lemma StronglySorted_sublist {A : Type} (R : relation A) (l1 l2 : list A) :
  l1 `sublist_of` l2 → StronglySorted R l2 → StronglySorted R l1.
Proof.
  induction 1 as [| x l1 l2 Hsub IH | x l1 l2 Hsub IH]; intros Hs; [done | |].
  - apply StronglySorted_inv in Hs as [Hs Hx]. constructor; [by apply IH |].
    apply Forall_forall. intros y Hy.
    rewrite Forall_forall in Hx. apply Hx. by eapply elem_of_sublist.
  - apply StronglySorted_inv in Hs as [Hs _]. by apply IH.
Qed.

Lemma dropna_index_sublist (s : list (Z * option Q)) :
  fst <$> dropna s `sublist_of` fst <$> s.
Proof.
  induction s as [| [t [v |]] s IH]; [done | |]; cbn.
  - by apply sublist_skip.
  - by apply sublist_cons.
Qed.

Lemma anchor_index_sublist (series : list (Z * Q)) :
  anchor_index series `sublist_of` fst <$> series.
Proof.
  unfold anchor_index, last_n. apply fmap_sublist.
  destruct (Nat.min 30 (length series)); [done | apply sublist_drop].
Qed.

Lemma grid_increasing (e0 w : Z) (j k : nat) :
  0 < w →
  StronglySorted Z.lt ((λ i : nat, e0 + Z.of_nat i * w + w) <$> seq j k).
Proof.
  intros Hw. revert j. induction k as [| k IH]; intros j; [constructor |].
  cbn. constructor; [apply IH |].
  apply Forall_fmap, Forall_seq. intros i Hi. cbn. nia.
Qed.

Lemma resample_mean_increasing (s : list (Z * option Q)) (w : Z) :
  0 < w → StronglySorted Z.lt (fst <$> resample_mean s w).
Proof.
  intros Hw. unfold resample_mean. destruct s as [| e s]; [constructor |].
  cbv zeta. rewrite <- list_fmap_compose. by apply grid_increasing.
Qed.

Lemma resample_series_increasing (df : DataFrame) (field : string)
    (minutes : Z) (s : list (Z * option Q)) :
  resample_series df field minutes = Ok s → StronglySorted Z.lt (fst <$> s).
Proof.
  unfold resample_series.
  destruct (empty df || negb (bool_decide (field ∈ columns df)));
    [intros [= <-]; constructor |].
  case_bool_decide as Hmin; [| done]. intros [= <-].
  apply resample_mean_increasing. unfold ns_per_minute. lia.
Qed.

Lemma resample_series_positive (df : DataFrame) (field : string)
    (minutes : Z) (s : list (Z * option Q)) :
  resample_series df field minutes = Ok s → s ≠ [] → 0 < minutes.
Proof.
  unfold resample_series.
  destruct (empty df || negb (bool_decide (field ∈ columns df)));
    [by intros [= <-] |].
  by case_bool_decide.
Qed.

Lemma anchor_step_positive (res_min : Z) (df_env : DataFrame)
    (resampled : list (Z * option Q)) (idx0 : Z) :
  resample_series df_env "field1" res_min = Ok resampled →
  dropna resampled ≠ [] →
  anchor_index (dropna resampled) !! 0%nat = Some idx0 →
  0 < match anchor_index (dropna resampled) !! 1%nat with
      | Some idx1 => idx1 - idx0
      | None => res_min * ns_per_minute
      end.
Proof.
  intros Hres Hne Hidx0.
  assert (Hsorted : StronglySorted Z.lt (anchor_index (dropna resampled))).
  { eapply StronglySorted_sublist; [apply anchor_index_sublist |].
    eapply StronglySorted_sublist; [apply dropna_index_sublist |].
    by eapply resample_series_increasing. }
  destruct (anchor_index (dropna resampled)) as [| a [| a' rest]]; [done | |].
  - cbn. assert (0 < res_min); [| unfold ns_per_minute; lia].
    eapply resample_series_positive; [exact Hres |]. by intros ->.
  - cbn in *. injection Hidx0 as ->.
    apply StronglySorted_inv in Hsorted as [_ Hlt].
    apply Forall_cons_1 in Hlt as [Hlt _]. lia.
Qed.


(** * The pipeline on the sample world *)

Import Sample.

(** The resampling scenario of the specification: values 30, missing, 40
    one minute apart under two-minute buckets give the means 30 and 40,
    each labelled by the end of its bucket. *)
Example resample_scenario :
  resample_series soil_frame "field2" 2
  = Ok [ (T0 + 2 * ns_per_minute, Some (30 # 1)%Q);
         (T0 + 4 * ns_per_minute, Some (40 # 1)%Q) ].
Proof. vm_compute. reflexivity. Qed.

(** Under one-minute buckets the middle bucket has no value: it stays in
    the series, with a missing value. *)
Example resample_empty_bucket :
  resample_series soil_frame "field2" 1
  = Ok [ (T0 + 1 * ns_per_minute, Some (30 # 1)%Q);
         (T0 + 2 * ns_per_minute, None);
         (T0 + 3 * ns_per_minute, Some (40 # 1)%Q) ].
Proof. vm_compute. reflexivity. Qed.





(** The trend scenario of the specification, as the code runs it: the
    axis starts at the first label of the window and advances by ten
    minutes, and the first value is the intercept. *)
Example trend_scenario :
  ∃ fig t,
    plot_air_temp_with_trend 10 env_frame = Ok (Some fig)
    ∧ trend fig = Some t
    ∧ take 3 (idx_ext t)
      = [T0 + 10 * ns_per_minute; T0 + 20 * ns_per_minute; T0 + 30 * ns_per_minute]
    ∧ take 3 (yhat t) = [(40 # 2)%Q; (41 # 2)%Q; (42 # 2)%Q]
    ∧ r_val fig = Some (9 # 10)%Q.
Proof.
  eexists _, _. split; [vm_compute; reflexivity |].
  split; [reflexivity |]. split; [vm_compute; reflexivity |].
  split; reflexivity.
Qed.



(** Where the wall clock goes back, the index does too: the rows are in
    order of instant, their local timestamps are not. *)
Example frame_index_fall_back :
  ∃ df,
    frame_of_feeds world "America/Chicago" fall_back_feeds = Ok df
    ∧ row_ts <$> rows df
      = [ 1730597400 * 1000000000; 1730596200 * 1000000000 ].
Proof. eexists. split; vm_compute; reflexivity. Qed.


(** The three ragged records: the one without a readable timestamp is
    gone; in the last one the fields that are no number are missing and
    the third field is kept. *)
Example ragged_normalized :
  ∃ df,
    frame_of_feeds world "America/Monterrey" ragged_feeds = Ok df
    ∧ ((λ r, (row_ts r, row_cells r !! "field1", row_cells r !! "field2",
              row_cells r !! "field3")) <$> rows df)
      = [ (T0, Some (215 # 10)%Q, Some (30 # 1)%Q, None);
          (T0 + 2 * ns_per_minute, None, None, Some (7 # 1)%Q) ].
Proof. eexists. split; vm_compute; reflexivity. Qed.

(** The whole fetch on the sample world: the channel's labels resolved,
    and the latest air temperature of the normalized table. *)
Example fetch_sample :
  ∃ meta df,
    fetch_thingspeak world CHANNEL_ENV DEFAULT_TIMEZONE false
      (mkdate 2024 4 30) (mkdate 2024 5 1) MAX_POINTS None = Ok (meta, df)
    ∧ label_map_from_meta meta !! "field1" = Some "Air Temp"
    ∧ label_map_from_meta meta !! "field4" = Some "field4"
    ∧ latest_value df "field1"
      = (Some (225 # 10)%Q, Some (T0 + 2 * ns_per_minute)).
Proof.
  eexists _, _. split; [vm_compute; reflexivity |].
  repeat split; vm_compute; reflexivity.
Qed.

(** The model may come from different readings: each field is looked up
    on its own, past the rows where it is missing. *)
Example latest_lin_params_mixed_rows :
  latest_lin_params
    (mkDF {[ "created_at"; "field5"; "field6" ]}
          [ mkRow T0 {[ "field5" := (1 # 2)%Q ]};
            mkRow (T0 + ns_per_minute) {[ "field6" := (20 # 1)%Q ]};
            mkRow (T0 + 2 * ns_per_minute) ∅ ])
  = (Some (1 # 2)%Q, Some (20 # 1)%Q).
Proof. vm_compute. reflexivity. Qed.

Example request_latest :
  map_to_list (request_params "America/Monterrey" false (mkdate 2024 4 30)
                 (mkdate 2024 5 1) MAX_POINTS None)
  ≡ₚ [ ("timezone", PStr "America/Monterrey"); ("results", PInt 8000) ].
Proof. vm_compute. apply perm_swap || reflexivity. Qed.

Example request_range :
  request_params "America/Monterrey" true (mkdate 2024 4 30) (mkdate 2024 5 1)
    MAX_POINTS (Some "KEY") !! "start" = Some (PStr "2024-04-30 00:00:00")
  ∧ request_params "America/Monterrey" true (mkdate 2024 4 30) (mkdate 2024 5 1)
      MAX_POINTS (Some "KEY") !! "end" = Some (PStr "2024-05-01 23:59:59").
Proof. split; vm_compute; reflexivity. Qed.

Example air_temp_35_out_of_range :
  _bg_for_main "air_temp" (Some (35 # 1)%Q) = Ok RED.
Proof. reflexivity. Qed.

Example clean_examples :
  _clean "  Soil   Temp  " = "Soil Temp" ∧ _clean "   " = "" ∧ _clean "" = "".
Proof. repeat split; reflexivity. Qed.

(** * Beyond the claims *)

(** ** The summary cards *)

Lemma LIMITS_MAIN_keys (metric_key : string) :
  LIMITS_MAIN !! metric_key = None
  ↔ metric_key ∉ ["soil_moist"; "air_temp"; "air_hum"; "soil_ph"].
Proof.
  split.
  - intros Hk Hin.
    repeat (apply elem_of_cons in Hin as [-> | Hin]; [by vm_compute in Hk |]).
    by apply elem_of_nil in Hin.
  - intros Hnot. unfold LIMITS_MAIN.
    repeat (rewrite lookup_insert_ne by (intros <-; apply Hnot; set_solver)).
    apply lookup_singleton_ne. intros <-. apply Hnot. set_solver.
Qed.

(** X1.  [_bg_for_main] raises exactly when it is given a value for a
    key that is none of the four configured ones, and then a [KeyError]
    on that key; without a value it never looks the key up. *)
Theorem bg_for_main_raises (metric_key : string) (value : option Q) (e : exn) :
  ((_bg_for_main metric_key value = Raise e)
   ↔ ((∃ v, value = Some v)
      ∧ (metric_key ∉ ["soil_moist"; "air_temp"; "air_hum"; "soil_ph"])
      ∧ e = KeyError metric_key))
  ∧ _bg_for_main metric_key None = Ok GRAY.
Proof.
  split; [| done]. unfold _bg_for_main.
  destruct value as [v |].
  - destruct (LIMITS_MAIN !! metric_key) as [band |] eqn:Hk.
    + split; [done |]. intros (_ & Hnot & _).
      apply LIMITS_MAIN_keys in Hnot. congruence.
    + apply LIMITS_MAIN_keys in Hk. split.
      * intros [= <-]. eauto.
      * by intros (_ & _ & ->).
  - split; [done |]. by intros ([v Hv] & _).
Qed.

Lemma colour_red (band : Q * Q) (value : option Q) :
  colour_of (classify_spec band value) = RED
  ↔ ∃ v, value = Some v ∧ (v < band.1 ∨ band.2 < v)%Q.
Proof.
  destruct band as [lo hi]. destruct value as [v |]; cbn [fst snd].
  - destruct (classify_spec (lo, hi) (Some v)) eqn:Hc.
    + split; [done |]. intros (v' & [= <-] & Hout).
      apply classify_spec_out in Hout. congruence.
    + apply classify_spec_out in Hc. split; [eauto | done].
    + cbn in Hc. repeat destruct (Qlt_le_dec _ _); discriminate.
  - split; [done |]. by intros (v & ? & _).
Qed.

(** X2.  The summary page never fails, whatever the two tables hold: it
    shows four cards, each with the latest value of its field (soil
    moisture: soil field2; air temperature: environment field1; air
    humidity: environment field2; soil pH: soil field4), and a card is red
    exactly when it has a value strictly outside the band of its metric;
    a card without data keeps the neutral colour. *)
Theorem summary_cards (df_soil df_env : DataFrame) :
  let val_sm := (latest_value df_soil "field2").1 in
  let val_ta := (latest_value df_env "field1").1 in
  let val_rh := (latest_value df_env "field2").1 in
  let val_ph := (latest_value df_soil "field4").1 in
  ∃ bg_sm bg_ta bg_rh bg_ph,
    summary df_soil df_env
    = Ok [ mkCard "Soil Moisture" val_sm "%" bg_sm;
           mkCard "Air Temp" val_ta DEG_C bg_ta;
           mkCard "Air Humidity" val_rh "%" bg_rh;
           mkCard "Soil pH" val_ph "pH" bg_ph ]
    ∧ (bg_sm = RED ↔ ∃ v, val_sm = Some v ∧ (v < 25 # 1 ∨ 50 # 1 < v)%Q)
    ∧ (bg_ta = RED ↔ ∃ v, val_ta = Some v ∧ (v < 20 # 1 ∨ 30 # 1 < v)%Q)
    ∧ (bg_rh = RED ↔ ∃ v, val_rh = Some v ∧ (v < 40 # 1 ∨ 60 # 1 < v)%Q)
    ∧ (bg_ph = RED ↔ ∃ v, val_ph = Some v ∧ (v < 55 # 10 ∨ 68 # 10 < v)%Q)
    ∧ Forall (λ bg, bg = RED ∨ bg = GRAY) [bg_sm; bg_ta; bg_rh; bg_ph].
Proof.
  cbv zeta. unfold summary.
  rewrite (bg_refines_classify "soil_moist" (25 # 1) (50 # 1)) by done.
  rewrite (bg_refines_classify "air_temp" (20 # 1) (30 # 1)) by done.
  rewrite (bg_refines_classify "air_hum" (40 # 1) (60 # 1)) by done.
  rewrite (bg_refines_classify "soil_ph" (55 # 10) (68 # 10)) by done.
  eexists _, _, _, _. split; [reflexivity |].
  split; [apply (colour_red (25 # 1, 50 # 1)%Q) |].
  split; [apply (colour_red (20 # 1, 30 # 1)%Q) |].
  split; [apply (colour_red (40 # 1, 60 # 1)%Q) |].
  split; [apply (colour_red (55 # 10, 68 # 10)%Q) |].
  assert (Hcol : ∀ band v, colour_of (classify_spec band v) = RED
                           ∨ colour_of (classify_spec band v) = GRAY).
  { intros band v. destruct (classify_spec band v); cbn; auto. }
  repeat (apply Forall_cons; split; [apply Hcol |]). constructor.
Qed.

(** ** The label map *)

Lemma sub_spaces_fixed (b : bool) (l : list ascii) :
  single_spaced l →
  (b = true → ∀ d, head l = Some d → is_space d = false) →
  sub_spaces b l = l.
Proof.
  revert b. induction l as [| c l IH]; intros b Hss Hhead; [done |].
  cbn [sub_spaces]. destruct Hss as [Hc Hss].
  destruct (is_space c) eqn:Hsp.
  - destruct (Hc eq_refl) as [-> Hnext].
    destruct b.
    + by rewrite (Hhead eq_refl " "%char) in Hsp.
    + f_equal. by apply IH.
  - f_equal. by apply IH.
Qed.

Lemma lstrip_fixed (l : list ascii) :
  (∀ c, head l = Some c → is_space c = false) → lstrip l = l.
Proof. destruct l as [| c l]; [done |]. intros H. cbn. by rewrite (H c). Qed.

Lemma rstrip_fixed (l : list ascii) :
  (∀ c, last l = Some c → is_space c = false) → rstrip l = l.
Proof.
  intros H. unfold rstrip. rewrite lstrip_fixed.
  - apply reverse_involutive.
  - intros c Hc. apply H. by rewrite <- head_reverse.
Qed.

Lemma clean_fixed (l : list ascii) :
  trimmed_collapsed l → strip (sub_spaces false l) = l.
Proof.
  intros (Hss & Hhead & Hlast).
  rewrite sub_spaces_fixed by done.
  unfold strip. rewrite lstrip_fixed by done. by apply rstrip_fixed.
Qed.

Lemma clean_list (s : string) :
  list_ascii_of_string (_clean s)
  = strip (sub_spaces false (list_ascii_of_string s)).
Proof.
  unfold _clean. case_bool_decide as Hs; [by rewrite Hs |].
  apply list_ascii_of_string_of_list_ascii.
Qed.

Lemma clean_idempotent (s : string) : _clean (_clean s) = _clean s.
Proof.
  rewrite <- (string_of_list_ascii_of_string (_clean (_clean s))).
  rewrite <- (string_of_list_ascii_of_string (_clean s)) at 2.
  f_equal. rewrite (clean_list (_clean s)).
  apply clean_fixed. rewrite clean_list. apply clean_trimmed_collapsed.
Qed.

Lemma clean_field_key (i : nat) :
  (1 ≤ i ≤ 8)%nat → _clean (field_key i) = field_key i ∧ field_key i ≠ "".
Proof.
  intros Hi. assert (Hcases : i ∈ seq 1 8) by (apply elem_of_seq; lia).
  cbn [seq] in Hcases.
  repeat (apply elem_of_cons in Hcases as [-> | Hcases];
          [split; [vm_compute; reflexivity | vm_compute; discriminate] |]).
  by apply elem_of_nil in Hcases.
Qed.

(** The name a slot resolves to; cleaning and resolving it again changes
    nothing. *)
Lemma resolve_idempotent (label key : string) :
  _clean key = key → key ≠ "" →
  str_or (_clean (str_or (_clean label) key)) key = str_or (_clean label) key.
Proof.
  intros Hkey Hne. unfold str_or at 2 3.
  case_bool_decide as Hc.
  - rewrite Hkey. unfold str_or. by rewrite bool_decide_false.
  - rewrite clean_idempotent. unfold str_or. by rewrite bool_decide_false.
Qed.

Lemma label_map_lookup_other (meta : gmap string string) (key : string) :
  key ∉ field_key <$> seq 1 8 → label_map_from_meta meta !! key = None.
Proof.
  intros Hnot. unfold label_map_from_meta. cbn [seq foldl].
  repeat (rewrite lookup_insert_ne
            by (intros <-; apply Hnot; cbn [seq fmap list_fmap]; set_solver)).
  apply lookup_empty.
Qed.

Lemma label_map_lookup_key (meta : gmap string string) (key name : string) :
  label_map_from_meta meta !! key = Some name →
  ∃ i, (1 ≤ i ≤ 8)%nat ∧ key = field_key i
       ∧ name = str_or (_clean (default "" (meta !! key))) key.
Proof.
  intros Hlk.
  destruct (decide (key ∈ field_key <$> seq 1 8)) as [Hin | Hnot].
  - apply list_elem_of_fmap in Hin as (i & -> & Hi).
    apply elem_of_seq in Hi. exists i. split; [lia |]. split; [done |].
    rewrite label_map_lookup in Hlk by lia. congruence.
  - rewrite label_map_lookup_other in Hlk by done. done.
Qed.

(** X3.  Whatever the metadata holds, the label map has exactly the eight
    keys "field1" .. "field8"; every name in it is non-empty and clean
    (no white space at either end, single spaces inside); and it depends
    on the metadata only through the labels of those eight keys. *)
Theorem label_map_total (meta : gmap string string) :
  dom (label_map_from_meta meta) = list_to_set (field_key <$> seq 1 8)
  ∧ size (label_map_from_meta meta) = 8%nat
  ∧ (∀ key name, label_map_from_meta meta !! key = Some name →
       name ≠ "" ∧ _clean name = name
       ∧ trimmed_collapsed (list_ascii_of_string name))
  ∧ (∀ meta' : gmap string string,
       (∀ i, (1 ≤ i ≤ 8)%nat → meta' !! field_key i = meta !! field_key i) →
       label_map_from_meta meta' = label_map_from_meta meta).
Proof.
  assert (Hdom : dom (label_map_from_meta meta)
                 = list_to_set (field_key <$> seq 1 8)).
  { apply set_eq. intros key. rewrite elem_of_dom, elem_of_list_to_set. split.
    - intros [name Hlk]. apply label_map_lookup_key in Hlk as (i & Hi & -> & _).
      apply list_elem_of_fmap. exists i. split; [done |]. apply elem_of_seq. lia.
    - intros (i & -> & Hi)%list_elem_of_fmap. apply elem_of_seq in Hi.
      rewrite label_map_lookup by lia. eauto. }
  split; [exact Hdom |].
  split.
  { rewrite <- size_dom, Hdom. by vm_compute. }
  split.
  - intros key name Hlk.
    apply label_map_lookup_key in Hlk as (i & Hi & -> & ->).
    destruct (clean_field_key i Hi) as [Hkey Hne].
    assert (Hname : _clean (str_or (_clean (default "" (meta !! field_key i)))
                              (field_key i))
                    = str_or (_clean (default "" (meta !! field_key i)))
                        (field_key i)).
    { unfold str_or. case_bool_decide; [done | apply clean_idempotent]. }
    split; [| split; [done |]].
    + unfold str_or. by case_bool_decide.
    + rewrite <- Hname, clean_list. apply clean_trimmed_collapsed.
  - intros meta' Hagree. unfold label_map_from_meta. cbn [seq foldl].
    by rewrite !Hagree by lia.
Qed.

(** X4.  Cleaning is idempotent, and so is label resolution: resolving
    the labels of a label map gives the same map back. *)
Theorem label_map_idempotent (meta : gmap string string) :
  (∀ s, _clean (_clean s) = _clean s)
  ∧ label_map_from_meta (label_map_from_meta meta) = label_map_from_meta meta.
Proof.
  split; [apply clean_idempotent |].
  apply map_eq. intros key.
  destruct (decide (key ∈ field_key <$> seq 1 8)) as [Hin | Hnot].
  - apply list_elem_of_fmap in Hin as (i & -> & Hi). apply elem_of_seq in Hi.
    rewrite !label_map_lookup by lia. cbn [default]. f_equal.
    by apply resolve_idempotent; apply clean_field_key; lia.
  - by rewrite !label_map_lookup_other.
Qed.

(** ** Normalization: errors, invariants, no data *)

Section normalizer_extra.

Context (E : Externals).
Implicit Types (fs : list record) (r : record) (c : string).

(** X5.  Normalization fails in two cases only, both on records that
    have some key: with a [KeyError] when no record has a "created_at"
    key, and with an unknown-zone error when one has but the zone name is
    not known.  On no record, or on records without any key, it returns
    the empty frame whatever the zone name. *)
Theorem frame_of_feeds_raises (timezone : string) fs (e : exn) :
  ((frame_of_feeds E timezone fs = Raise e)
   ↔ (fs ≠ [] ∧ raw_columns fs ≠ ∅
      ∧ ((("created_at" ∉ raw_columns fs) ∧ e = KeyError "created_at")
         ∨ ("created_at" ∈ raw_columns fs ∧ tz_lookup E timezone = None
            ∧ e = UnknownTimeZoneError timezone))))
  ∧ (fs = [] ∨ raw_columns fs = ∅ → frame_of_feeds E timezone fs = Ok empty_frame).
Proof.
  unfold frame_of_feeds. cbv zeta. split.
  - case_bool_decide as Hempty.
    { split; [done |]. intros (? & ? & _). tauto. }
    case_bool_decide as Hcol.
    + destruct (tz_lookup E timezone) as [local |] eqn:Hzone.
      * split; [done |]. intros (_ & _ & [[? _] | (_ & ? & _)]); done.
      * split.
        -- intros [= <-]. split; [tauto |]. split; [tauto |]. by right.
        -- intros (_ & _ & [[? _] | (_ & _ & ->)]); done.
    + split.
      * intros [= <-]. split; [tauto |]. split; [tauto |]. by left.
      * intros (_ & _ & [[_ ->] | (? & _)]); done.
  - intros Hempty. by rewrite bool_decide_true.
Qed.

Lemma row_of_sorted (local : Z → Z) fs (row : Row) :
  row ∈ row_of E local <$> merge_sort by_instant (dated E fs) →
  ∃ t r, r ∈ fs ∧ instant E fs r = Some t
         ∧ row = mkRow (local t) (numeric_cells E r).
Proof.
  intros ([t r] & -> & Hin)%list_elem_of_fmap.
  rewrite merge_sort_Permutation in Hin. unfold dated in Hin.
  apply list_elem_of_omap in Hin as (r' & Hr' & Hsome).
  destruct (instant E fs r') as [t' |] eqn:Ht; [| done].
  injection Hsome as <- <-. by exists t', r'.
Qed.

Lemma numeric_cells_Some r c (q : Q) :
  numeric_cells E r !! c = Some q →
  startswith "field" c = true
  ∧ ∃ s, r !! c = Some (Some s) ∧ to_numeric E s = Some q.
Proof.
  intros Hq. destruct (startswith "field" c) eqn:Hc.
  - split; [done |]. rewrite numeric_cells_lookup in Hq by done.
    unfold raw_cell in Hq. destruct (r !! c) as [[s |] |]; try done. eauto.
  - by rewrite numeric_cells_other in Hq.
Qed.


End normalizer_extra.

(** ** No data *)

Lemma empty_table_no_data (df : DataFrame) (field : string) (minutes : Z) :
  empty df = true →
  latest_value df field = (None, None)
  ∧ resample_series df field minutes = Ok []
  ∧ latest_lin_params df = (None, None)
  ∧ plot_air_temp_with_trend minutes df = Ok None.
Proof.
  intros He.
  unfold latest_value, resample_series, latest_lin_params,
    plot_air_temp_with_trend.
  by rewrite He.
Qed.

(** X7.  When the channel answers with no feed (an empty list, or no
    "feeds" entry at all), the fetch succeeds whatever the zone name,
    known or not: it returns the channel's metadata (empty when the
    answer has none) and the empty table; and on that table every
    aggregator gives its "no data" result without failing, for every
    field and every bucket width: no latest value, an empty resampled
    series, no trend model, no air-temperature figure, a metric page with
    an empty card and no chart, and four neutral summary cards. *)
Theorem fetch_no_data (E : Externals) (channel_id : Z) (timezone : string)
    (use_range : bool) (start_date end_date : date) (max_points : Z)
    (read_key : option string) (payload : Payload) :
  http_get E
    ("https://api.thingspeak.com/channels/" +:+ pretty channel_id +:+ "/feeds.json")
    (request_params timezone use_range start_date end_date max_points read_key)
  = Ok payload →
  default [] (feeds payload) = [] →
  ∃ df,
    fetch_thingspeak E channel_id timezone use_range start_date end_date
      max_points read_key = Ok (default ∅ (channel payload), df)
    ∧ df = empty_frame
    ∧ ∀ field minutes title y_label unit icon,
        latest_value df field = (None, None)
        ∧ resample_series df field minutes = Ok []
        ∧ latest_lin_params df = (None, None)
        ∧ plot_air_temp_with_trend minutes df = Ok None
        ∧ plot_metric minutes df field title y_label unit icon
          = Ok (mkMetricPage (mkKpi title None unit icon None) None)
        ∧ summary df df
          = Ok [ mkCard "Soil Moisture" None "%" GRAY;
                 mkCard "Air Temp" None DEG_C GRAY;
                 mkCard "Air Humidity" None "%" GRAY;
                 mkCard "Soil pH" None "pH" GRAY ].
Proof.
  intros Hget Hfeeds. exists empty_frame.
  split; [unfold fetch_thingspeak; cbv zeta; rewrite Hget; cbn; by rewrite Hfeeds |].
  split; [done |].
  intros field minutes title y_label unit icon.
  destruct (empty_table_no_data empty_frame field minutes eq_refl)
    as (H1 & H2 & H3 & H4).
  split; [done |]. split; [done |]. split; [done |]. split; [done |].
  split.
  - unfold plot_metric. rewrite H1. cbn. by rewrite orb_true_r.
  - reflexivity.
Qed.

Lemma fetch_no_data_witness :
  fetch_thingspeak quiet CHANNEL_SOIL "Mars/Olympus" false (mkdate 2024 4 30)
    (mkdate 2024 5 1) MAX_POINTS None
  = Ok ({[ "field1" := "Air Temp" ]}, empty_frame).
Proof.
  destruct (fetch_no_data quiet CHANNEL_SOIL "Mars/Olympus" false
              (mkdate 2024 4 30) (mkdate 2024 5 1) MAX_POINTS None
              (mkPayload (Some {[ "field1" := "Air Temp" ]}) None)
              eq_refl eq_refl) as (df & Hfetch & -> & _).
  exact Hfetch.
Defined.

(** ** Resampling: the grid, the ends, the range of the means *)

Lemma fold_extreme_elem (f : Z → Z → Z) (l : list Z) (t0 : Z) :
  (∀ a b, f a b = a ∨ f a b = b) → foldr f t0 l ∈ t0 :: l.
Proof.
  intros Hf. induction l as [| a l IH]; cbn; [apply list_elem_of_here |].
  destruct (Hf a (foldr f t0 l)) as [-> | ->].
  - apply list_elem_of_further, list_elem_of_here.
  - apply elem_of_cons in IH as [-> | IH]; [apply list_elem_of_here |].
    by do 2 apply list_elem_of_further.
Qed.

Lemma index_min_elem (s : list (Z * option Q)) (t0 : Z) :
  index_min s t0 ∈ t0 :: (fst <$> s).
Proof.
  apply fold_extreme_elem. intros a b.
  destruct (Z.min_spec a b) as [[_ ->] | [_ ->]]; auto.
Qed.

Lemma index_max_elem (s : list (Z * option Q)) (t0 : Z) :
  index_max s t0 ∈ t0 :: (fst <$> s).
Proof.
  apply fold_extreme_elem. intros a b.
  destruct (Z.max_spec a b) as [[_ ->] | [_ ->]]; auto.
Qed.

(** The earliest and the latest instant of a series that has a row. *)
Lemma index_extremes (e : Z * option Q) (s : list (Z * option Q)) :
  let s' := e :: s in
  index_min s' e.1 ∈ fst <$> s' ∧ index_max s' e.1 ∈ fst <$> s'
  ∧ ∀ t, t ∈ fst <$> s' → index_min s' e.1 ≤ t ≤ index_max s' e.1.
Proof.
  cbv zeta. split; [| split].
  - pose proof (index_min_elem (e :: s) e.1) as H.
    apply elem_of_cons in H as [-> | H]; [apply list_elem_of_here | done].
  - pose proof (index_max_elem (e :: s) e.1) as H.
    apply elem_of_cons in H as [-> | H]; [apply list_elem_of_here | done].
  - intros t (x & -> & Hx)%list_elem_of_fmap.
    pose proof (proj2 (index_min_le (e :: s) e.1) x Hx).
    pose proof (proj2 (index_max_ge (e :: s) e.1) x Hx). lia.
Qed.

Lemma resample_series_Ok (df : DataFrame) (field : string) (minutes : Z)
    (s : list (Z * option Q)) :
  resample_series df field minutes = Ok s → s ≠ [] →
  0 < minutes ∧ empty df = false ∧ field ∈ columns df
  ∧ s = resample_mean (column df field) (minutes * ns_per_minute).
Proof.
  unfold resample_series. intros Hs Hne.
  destruct (empty df) eqn:He; [by injection Hs as <- |].
  case_bool_decide as Hf; cbn in Hs; [| by injection Hs as <-].
  case_bool_decide as Hm; [| done]. by injection Hs as <-.
Qed.

Lemma resample_series_run (df : DataFrame) (field : string) (minutes : Z) :
  0 < minutes → empty df = false → field ∈ columns df →
  resample_series df field minutes
  = Ok (resample_mean (column df field) (minutes * ns_per_minute))
  ∧ ∃ e s, column df field = e :: s.
Proof.
  intros Hm He Hf. unfold resample_series.
  rewrite He, (bool_decide_true (field ∈ columns df)) by done. cbn.
  rewrite bool_decide_true by done. split; [done |].
  unfold empty in He. apply bool_decide_eq_false in He.
  unfold column. destruct (rows df) as [| r rs]; [tauto |]. cbn. eauto.
Qed.

(** X8.  Whatever the order and the repetitions of the table's index,
    the labels of a resampled series are strictly increasing, hence
    distinct; and they sit on the grid of step [w] that starts at the
    midnight of the day of the earliest reading. *)
Theorem resample_series_grid (df : DataFrame) (field : string) (minutes : Z)
    (s : list (Z * option Q)) :
  resample_series df field minutes = Ok s →
  StronglySorted Z.lt (fst <$> s)
  ∧ NoDup (fst <$> s)
  ∧ (s ≠ [] →
     ∃ first,
       first ∈ fst <$> column df field
       ∧ (∀ t, t ∈ fst <$> column df field → first ≤ t)
       ∧ ∀ L, L ∈ fst <$> s →
           (L - (first - first `mod` ns_per_day))
             `mod` (minutes * ns_per_minute) = 0).
Proof.
  intros Hs.
  pose proof (resample_series_increasing df field minutes s Hs) as Hsorted.
  split; [done |]. split.
  - clear Hs. induction Hsorted as [| t l _ IH Hall]; constructor; [| done].
    intros Hin. rewrite Forall_forall in Hall. specialize (Hall t Hin). lia.
  - intros Hne.
    destruct (resample_series_Ok df field minutes s Hs Hne)
      as (Hm & He & Hf & ->).
    assert (Hw : 0 < minutes * ns_per_minute) by (unfold ns_per_minute; lia).
    destruct (column df field) as [| e col] eqn:Hcol; [done |].
    destruct (index_extremes e col) as (Hmin & _ & Hle).
    exists (index_min (e :: col) e.1). split; [done |].
    split; [intros t Ht; by apply Hle |].
    intros L ((L' & v) & -> & [i Hi]%list_elem_of_lookup)%list_elem_of_fmap.
    apply resample_mean_lookup in Hi as (e' & [= <-] & -> & _).
    cbn [fst].
    pose proof (first_edge_aligned (index_min (e :: col) e.1) _ Hw) as Hal.
    set (first := index_min (e :: col) e.1) in *.
    set (w := minutes * ns_per_minute) in *.
    replace (first_edge first w + (Z.of_nat i + 1) * w
             - (first - first `mod` ns_per_day))
      with (first_edge first w - (first - first `mod` ns_per_day)
            + (Z.of_nat i + 1) * w) by lia.
    by rewrite Z.mod_add by lia.
Qed.


Lemma elem_of_bucket_values (s : list (Z * option Q)) (lo hi : Z) (v : Q) :
  v ∈ bucket_values s lo hi ↔ ∃ t, (t, Some v) ∈ s ∧ lo ≤ t < hi.
Proof.
  unfold bucket_values, dropna.
  rewrite list_elem_of_fmap. split.
  - intros ([t v'] & -> & Hin). apply list_elem_of_omap in Hin as ([t' o] & Hin & Ho).
    apply list_elem_of_filter in Hin as [Hrange Hin]. cbn in *.
    destruct o as [q |]; [| done]. injection Ho as <- <-. eauto.
  - intros (t & Hin & Hrange). exists (t, v). split; [done |].
    apply list_elem_of_omap. exists (t, Some v). split; [| done].
    by apply list_elem_of_filter.
Qed.

Lemma Qsum_bounds (vs : list Q) (lo hi : Q) :
  Forall (λ v, lo <= v ∧ v <= hi)%Q vs →
  (lo * inject_Z (Z.of_nat (length vs)) <= Qsum vs
   ∧ Qsum vs <= hi * inject_Z (Z.of_nat (length vs)))%Q.
Proof.
  induction 1 as [| v vs [Hlo Hhi] _ [IHlo IHhi]].
  { change (Qsum []) with 0%Q.
    change (inject_Z (Z.of_nat (length (@nil Q)))) with 0%Q. lra. }
  cbn [length Qsum foldr]. fold (Qsum vs).
  rewrite Nat2Z.inj_succ, <- Z.add_1_r, inject_Z_plus.
  change (inject_Z 1) with 1%Q.
  set (n := inject_Z (Z.of_nat (length vs))) in *. lra.
Qed.

Lemma mean_bounds (vs : list Q) (lo hi q : Q) :
  Forall (λ v, lo <= v ∧ v <= hi)%Q vs → mean vs = Some q →
  (lo <= q ∧ q <= hi)%Q.
Proof.
  intros Hall Hq. destruct (mean_arithmetic vs q Hq) as [Hne Hsum].
  destruct (Qsum_bounds vs lo hi Hall) as [Hlo Hhi].
  set (n := inject_Z (Z.of_nat (length vs))) in *.
  assert (Hn : (0 < n)%Q).
  { unfold n. destruct vs; [done |]. cbn [length].
    rewrite <- (Zlt_Qlt 0). lia. }
  rewrite <- Hsum in Hlo, Hhi.
  split; [by apply (Qmult_le_r _ _ n) | by apply (Qmult_le_r _ _ n)].
Qed.


(** ** Resampling neither loses nor invents a reading *)

Lemma filter_all {A : Type} (P : A → Prop) `{∀ x, Decision (P x)} (l : list A) :
  Forall P l → filter P l = l.
Proof.
  induction 1 as [| x l Hx _ IH]; [done |].
  by rewrite filter_cons_True, IH.
Qed.

Lemma filter_range_split (s : list (Z * option Q)) (a b c : Z) :
  a ≤ b ≤ c →
  filter (λ e, a ≤ e.1 < c) s
  ≡ₚ filter (λ e, a ≤ e.1 < b) s ++ filter (λ e, b ≤ e.1 < c) s.
Proof.
  intros Habc. induction s as [| e s IH]; [done |].
  rewrite !filter_cons.
  destruct (decide (a ≤ e.1 < c)), (decide (a ≤ e.1 < b)),
    (decide (b ≤ e.1 < c)); try lia.
  - cbn. by rewrite IH.
  - rewrite IH. apply Permutation_middle.
  - done.
Qed.

Lemma buckets_cover (s : list (Z * option Q)) (e0 w : Z) (k : nat) :
  0 < w →
  concat ((λ i : nat, filter (λ e, e0 + Z.of_nat i * w ≤ e.1
                                   < e0 + Z.of_nat i * w + w) s) <$> seq 0 k)
  ≡ₚ filter (λ e, e0 ≤ e.1 < e0 + Z.of_nat k * w) s.
Proof.
  intros Hw. induction k as [| k IH].
  - cbn. symmetry. apply Permutation_nil_r.
    induction s as [| e s IHs]; [done |].
    rewrite filter_cons_False by lia. done.
  - rewrite seq_S, fmap_app, concat_app, IH. cbn [fmap list_fmap concat].
    rewrite app_nil_r.
    rewrite (filter_range_split s e0 (e0 + Z.of_nat k * w)
               (e0 + Z.of_nat (S k) * w)) by lia.
    apply Permutation_app; [done |].
    replace (e0 + Z.of_nat (S k) * w) with (e0 + Z.of_nat (0 + k) * w + w) by lia.
    done.
Qed.

Lemma dropna_concat (ls : list (list (Z * option Q))) :
  dropna (concat ls) = concat (dropna <$> ls).
Proof.
  induction ls as [| l ls IH]; [done |].
  cbn [concat fmap list_fmap]. by rewrite dropna_app, IH.
Qed.

Lemma fmap_concat {A B : Type} (f : A → B) (ls : list (list A)) :
  f <$> concat ls = concat ((λ l : list A, f <$> l) <$> ls).
Proof.
  induction ls as [| l ls IH]; [done |].
  cbn [concat fmap list_fmap]. by rewrite fmap_app, IH.
Qed.

(** The buckets of a resampled series share out the values present. *)
Lemma resample_mean_partition (s : list (Z * option Q)) (w : Z) :
  0 < w →
  concat ((λ e, bucket_values s (e.1 - w) e.1) <$> resample_mean s w)
  ≡ₚ snd <$> dropna s.
Proof.
  intros Hw. unfold resample_mean. destruct s as [| e s]; [done |]. cbv zeta.
  set (s' := e :: s).
  set (first := index_min s' e.1). set (last_t := index_max s' e.1).
  set (e0 := first_edge first w). set (k := bin_count first last_t w).
  rewrite <- list_fmap_compose.
  assert (Hext : (λ e1 : Z * option Q, bucket_values s' (e1.1 - w) e1.1)
                   ∘ (λ i : nat, (e0 + Z.of_nat i * w + w,
                                  mean (bucket_values s' (e0 + Z.of_nat i * w)
                                          (e0 + Z.of_nat i * w + w))))
                 <$> seq 0 k
                 = (λ l : list (Z * Q), snd <$> l)
                     <$> (dropna
                            <$> ((λ i : nat,
                                    filter (λ e, e0 + Z.of_nat i * w ≤ e.1
                                                 < e0 + Z.of_nat i * w + w) s')
                                   <$> seq 0 k))).
  { rewrite <- !list_fmap_compose. apply list_fmap_ext. intros _ i _. cbn.
    unfold bucket_values.
    by replace (e0 + Z.of_nat i * w + w - w) with (e0 + Z.of_nat i * w) by lia. }
  rewrite Hext.
  rewrite <- fmap_concat, <- dropna_concat.
  apply fmap_Permutation. unfold dropna. apply omap_Permutation.
  rewrite buckets_cover by done.
  rewrite filter_all; [done |].
  apply Forall_forall. intros x Hx.
  pose proof (proj2 (index_min_le s' e.1) x Hx) as Hmin.
  pose proof (proj2 (index_max_ge s' e.1) x Hx) as Hmax.
  pose proof (first_edge_bounds first w Hw) as He0.
  fold first in Hmin. fold last_t in Hmax. fold e0 in He0.
  assert (Hfl : first ≤ last_t) by lia.
  pose proof (Z.div_mod (last_t - e0) w ltac:(lia)) as Hdm.
  pose proof (Z.mod_pos_bound (last_t - e0) w Hw) as Hmb.
  assert (0 ≤ (last_t - e0) `div` w) by (apply Z.div_pos; lia).
  unfold k, bin_count. fold e0. lia.
Qed.

Lemma Qsum_app (l1 l2 : list Q) : (Qsum (l1 ++ l2) == Qsum l1 + Qsum l2)%Q.
Proof.
  induction l1 as [| v l1 IH]; cbn [app Qsum foldr].
  - change (Qsum l2 == 0 + Qsum l2)%Q. ring.
  - fold (Qsum (l1 ++ l2)) (Qsum l1). rewrite IH. ring.
Qed.

Lemma Qsum_Permutation (l1 l2 : list Q) : l1 ≡ₚ l2 → (Qsum l1 == Qsum l2)%Q.
Proof.
  induction 1 as [| v l1 l2 _ IH | v v' l | l1 l2 l3 _ IH1 _ IH2];
    cbn [Qsum foldr].
  - reflexivity.
  - fold (Qsum l1) (Qsum l2). by rewrite IH.
  - fold (Qsum l). ring.
  - by rewrite IH1.
Qed.

(** The sum of the values of a bucket, from its mean and its count. *)
Lemma mean_total (vs : list Q) :
  (match mean vs with
   | Some q => q * inject_Z (Z.of_nat (length vs))
   | None => 0
   end == Qsum vs)%Q.
Proof.
  destruct (mean vs) as [q |] eqn:Hq.
  - by apply mean_arithmetic.
  - destruct vs; [reflexivity | done].
Qed.

Lemma Qsum_buckets (bs : list (list Q)) :
  (Qsum ((λ vs, match mean vs with
                | Some q => q * inject_Z (Z.of_nat (length vs))
                | None => 0
                end) <$> bs) == Qsum (concat bs))%Q.
Proof.
  induction bs as [| vs bs IH]; [reflexivity |].
  cbn [fmap list_fmap concat Qsum foldr].
  rewrite Qsum_app, <- IH, mean_total. reflexivity.
Qed.

Lemma length_present_buckets (bs : list (list Q)) :
  (length (filter (λ vs, vs ≠ []) bs) ≤ length (concat bs))%nat.
Proof.
  induction bs as [| vs bs IH]; [done |].
  rewrite filter_cons. cbn [concat]. rewrite length_app.
  destruct (decide (vs ≠ [])) as [Hne | He]; [| lia].
  destruct vs; [done |]. cbn. lia.
Qed.


Lemma resample_mean_values (s : list (Z * option Q)) (w : Z) :
  Forall (λ e, e.2 = mean (bucket_values s (e.1 - w) e.1)) (resample_mean s w).
Proof.
  apply Forall_forall. intros [L v] [i Hi]%list_elem_of_lookup.
  by apply resample_mean_lookup in Hi as (_ & _ & _ & -> & _).
Qed.

Lemma length_dropna_buckets (bv : Z * option Q → list Q)
    (s : list (Z * option Q)) :
  Forall (λ e, e.2 = mean (bv e)) s →
  length (dropna s) = length (filter (λ vs, vs ≠ []) (bv <$> s)).
Proof.
  induction 1 as [| [L v] s Hv _ IH]; [done |].
  cbn [fmap list_fmap]. rewrite filter_cons. cbn in Hv.
  destruct (bv (L, v)) as [| x vs] eqn:Hbv; cbn in Hv; subst v.
  - destruct (decide _) as [Hne | _]; [done |]. exact IH.
  - destruct (decide _) as [_ | He]; [| by destruct He].
    cbn. f_equal. exact IH.
Qed.



(** ** The latest value and the chart of a metric page *)

Lemma column_index (df : DataFrame) (field : string) :
  fst <$> column df field = row_ts <$> rows df.
Proof. unfold column. by rewrite <- list_fmap_compose. Qed.

(** X12.  On a table whose index is in ascending order, the latest value
    is the chronologically last one: no entry of the field that carries a
    value has a later timestamp. *)
Theorem latest_value_chronological (df : DataFrame) (field : string)
    (v : Q) (ts : Z) :
  StronglySorted Z.le (row_ts <$> rows df) →
  latest_value df field = (Some v, Some ts) →
  ∀ t q, (t, Some q) ∈ column df field → t ≤ ts.
Proof.
  intros Hsorted Hlatest t q Hin.
  apply latest_value_Some in Hlatest as (_ & _ & before & after & Hcol & Hafter).
  rewrite <- (column_index df field), Hcol, fmap_app in Hsorted.
  rewrite Hcol in Hin.
  apply elem_of_app in Hin as [Hin | Hin].
  - apply (StronglySorted_app_1_elem_of _ _ _ t ts Hsorted).
    + apply list_elem_of_fmap. by exists (t, Some q).
    + cbn. apply list_elem_of_here.
  - apply elem_of_cons in Hin as [[= -> _] | Hin]; [lia |].
    unfold all_missing in Hafter. rewrite Forall_forall in Hafter.
    by specialize (Hafter _ Hin).
Qed.

Lemma latest_value_chronological_witness :
  latest_value soil_frame "field2" = (Some (40 # 1)%Q, Some (T0 + 2 * ns_per_minute))
  ∧ ∀ t q, (t, Some q) ∈ column soil_frame "field2" → t ≤ T0 + 2 * ns_per_minute.
Proof.
  split; [reflexivity |].
  apply (latest_value_chronological soil_frame "field2" (40 # 1)).
  - vm_compute. repeat constructor; discriminate.
  - reflexivity.
Defined.

(** Where the index is not in order the latest value need not be the
    last in time: after Chicago's clocks went back, the row read last
    carries an earlier wall-clock time than the one before. *)
Example latest_value_not_chronological :
  ∃ df,
    frame_of_feeds world "America/Chicago" fall_back_feeds = Ok df
    ∧ latest_value df "field1" = (Some (11 # 1)%Q, Some (1730596200 * 1000000000))
    ∧ (1730597400 * 1000000000, Some (10 # 1)%Q) ∈ column df "field1".
Proof.
  eexists. split; [vm_compute; reflexivity |].
  split; [vm_compute; reflexivity |].
  vm_compute. apply list_elem_of_here.
Qed.

Lemma bucket_of_value (s : list (Z * option Q)) (w t : Z) (v : Q) :
  0 < w → (t, Some v) ∈ s →
  ∃ L q, (L, Some q) ∈ resample_mean s w ∧ L - w ≤ t < L.
Proof.
  intros Hw Hin.
  destruct (resample_mean_covers s w t (Some v) Hw Hin) as (L & o & HL & Hrange).
  apply list_elem_of_lookup in HL as Hi. destruct Hi as [i Hi].
  apply resample_mean_lookup in Hi as (_ & _ & _ & Ho & _).
  assert (Hv : v ∈ bucket_values s (L - w) L)
    by (apply elem_of_bucket_values; eauto).
  destruct (bucket_values s (L - w) L) as [| x vs] eqn:Hbv;
    [by apply elem_of_nil in Hv |].
  cbn in Ho. subst o. eauto.
Qed.





(** ** The air temperature figure *)

Lemma latest_value_fst_unguarded (df : DataFrame) (field : string) :
  empty df = false →
  (latest_value df field).1
  = if bool_decide (field ∈ columns df)
    then snd <$> last (dropna (column df field)) else None.
Proof.
  intros He. unfold latest_value. rewrite He. cbn.
  case_bool_decide; cbn; [| done].
  by destruct (last (dropna (column df field))) as [[? ?] |].
Qed.

Lemma latest_lin_params_cases (df : DataFrame) :
  latest_lin_params df = (None, None)
  ∨ ∃ m b, latest_lin_params df = (Some m, Some b).
Proof.
  rewrite latest_lin_params_unfold.
  destruct (latest_value df "field5").1, (latest_value df "field6").1; eauto.
Qed.


(** ** The projected axis *)

Lemma date_range_increasing (start : Z) (periods : nat) (freq : Z) :
  0 < freq → StronglySorted Z.lt (date_range start periods freq).
Proof.
  intros Hf. unfold date_range. generalize 0%nat as j.
  induction periods as [| k IH]; intros j; [constructor |].
  cbn. constructor; [apply IH |].
  apply Forall_fmap, Forall_seq. intros i Hi. cbn. nia.
Qed.


Lemma dropna_all_present (s : list (Z * option Q)) :
  Forall (λ e, is_Some e.2) s →
  fst <$> dropna s = fst <$> s ∧ length (dropna s) = length s.
Proof.
  induction 1 as [| [t o] s [v Hv] _ [IH1 IH2]]; [done |].
  cbn in Hv. subst o. unfold dropna in *. cbn. by rewrite IH1, IH2.
Qed.

Lemma anchor_index_lookup (series : list (Z * Q)) (j : nat) :
  (j < Nat.min 30 (length series))%nat →
  anchor_index series !! j
  = (fst <$> series) !! (length series - Nat.min 30 (length series) + j)%nat.
Proof.
  intros Hj. unfold anchor_index, last_n.
  destruct (Nat.min 30 (length series)) as [| n'] eqn:Hn; [lia |].
  by rewrite !list_lookup_fmap, lookup_drop.
Qed.


(** ** The request never carries another parameter *)

(** X18.  The request holds the time zone, then either the two bounds of
    the range or the point cap, then the key when it is not empty, and
    nothing else: two to four parameters. *)
Theorem request_params_domain (timezone : string) (use_range : bool)
    (start_date end_date : date) (max_points : Z) (read_key : option string) :
  let params :=
    request_params timezone use_range start_date end_date max_points read_key in
  dom params
  = {[ "timezone" ]}
    ∪ (if use_range then {[ "start"; "end" ]} else {[ "results" ]})
    ∪ (match read_key with
       | Some key => if bool_decide (key = "") then ∅ else {[ "api_key" ]}
       | None => ∅
       end)
  ∧ (2 ≤ size params ≤ 4)%nat
  ∧ (size params = 4%nat
     ↔ use_range = true ∧ ∃ key, read_key = Some key ∧ key ≠ "").
Proof.
  cbv zeta. rewrite <- size_dom. unfold request_params.
  destruct read_key as [key |]; [case_bool_decide as Hkey |];
    destruct use_range;
    (split; [vm_compute; reflexivity |]);
    (split; [vm_compute; lia |]);
    (split; [vm_compute; intros Hsize | intros [Hr (k & Hk & Hne)]]).
  all: try discriminate Hsize.
  all: try discriminate Hr.
  all: try congruence.
  - split; [done |]. by exists key.
  - vm_compute. reflexivity.
Qed.

(** ** The theorems above on the sample tables *)


Lemma resample_series_grid_witness :
  resample_series env_frame "field1" 10 = Ok env_resampled
  ∧ StronglySorted Z.lt (fst <$> env_resampled)
  ∧ NoDup (fst <$> env_resampled).
Proof.
  assert (H : resample_series env_frame "field1" 10 = Ok env_resampled)
    by (vm_compute; reflexivity).
  split; [exact H |].
  destruct (resample_series_grid env_frame "field1" 10 env_resampled H)
    as (Hsorted & Hnodup & _).
  split; [exact Hsorted | exact Hnodup].
Defined.





